(** * Token cache of the BLE tag tracker backend

    A shallow embedding of [backend/app.py]: the process-wide [token_cache],
    the [/api/token] view [get_token] and the [/api/health] view
    [health_check], followed by the properties of the token cache service.

    The two views run against a [World]: the cache, the wall clock read by
    [datetime.now()], the identity provider reached by [requests.post], and
    the log of the requests sent.  Exceptions are values of the monad [M];
    a raised exception does not roll the world back, exactly as a Python
    [try]/[except] leaves earlier assignments in place.  Dates and
    durations keep the ranges of the Python types, so that their arithmetic
    raises [OverflowError] where Python's does, and [total_seconds()] goes
    through a double as it does there.

    The two scripts of the repository follow: the rewriting of
    [build_production.py] and the scan of [pre_commit_check.py], both
    functions of texts. *)

From Stdlib Require Import ZArith List String Ascii Bool Lia Eqdep_dec.
From Stdlib Require Import DecimalString SpecFloat.
Import ListNotations.

Open Scope string_scope.
Open Scope Z_scope.

#[local] Set Warnings "-register-all".

(** ** Python values *)

Module Py.

(** The values the views handle: what [response.json()] yields and what
    [jsonify] serialises.  A [dict] keeps its insertion order and has
    string keys, as every dict built from JSON does. *)
Inductive value : Type :=
| VNone
| VBool (b : bool)
| VInt (n : Z)
| VFloat (f : spec_float)
| VStr (s : string)
| VList (items : list value)
| VDict (entries : list (string * value)).

(** The exceptions that can reach the [except Exception] clause. *)
Inductive exn : Type :=
| KeyError (key : string)
| TypeError
| AttributeError
| ValueError
| OverflowError
| JSONDecodeError
| Timeout
| ConnectionError.

(** The result of evaluating an expression that may raise. *)
Inductive result (A : Type) : Type :=
| Return (a : A)
| Raise (e : exn).

Arguments Return {A} a.
Arguments Raise {A} e.

(** [bool(v)]: the truth value an [if] or an [and] tests.  A float is false
    only when it is a zero; nan is true. *)
Definition truthy (v : value) : bool :=
  match v with
  | VNone => false
  | VBool b => b
  | VInt n => negb (n =? 0)%Z
  | VFloat (S754_zero _) => false
  | VFloat _ => true
  | VStr s => negb (s =? "")%string
  | VList items => match items with [] => false | _ :: _ => true end
  | VDict entries => match entries with [] => false | _ :: _ => true end
  end.

(** [v is not None]. *)
Definition is_not_None (v : value) : bool :=
  match v with
  | VNone => false
  | _ => true
  end.

(** Lookup of a key among the entries of a dict. *)
Fixpoint lookup (key : string) (entries : list (string * value)) : option value :=
  match entries with
  | [] => None
  | (k, v) :: rest => if (k =? key)%string then Some v else lookup key rest
  end.

(** [v[key]] for a string key: a dict raises [KeyError] on a missing key;
    a list or a string takes integer indices only and anything else is not
    subscriptable, both a [TypeError]. *)
Definition getitem (v : value) (key : string) : result value :=
  match v with
  | VDict entries =>
      match lookup key entries with
      | Some x => Return x
      | None => Raise (KeyError key)
      end
  | _ => Raise TypeError
  end.

(** [v.get(key, default)]: a method of dicts only. *)
Definition get (v : value) (key : string) (default : value) : result value :=
  match v with
  | VDict entries =>
      match lookup key entries with
      | Some x => Return x
      | None => Return default
      end
  | _ => Raise AttributeError
  end.

(** [str(n)] for an int, as an f-string formats it. *)
Definition str_int (n : Z) : string := NilZero.string_of_int (Z.to_int n).

End Py.

Import Py.

(** ** Dates and durations *)

Definition us_per_second : Z := 1000000.
Definition us_per_day : Z := 86400 * us_per_second.

(** A [timedelta] is a signed duration counted in microseconds, the
    resolution of the type.  [timedelta.min] is -999999999 days and
    [timedelta.max] one microsecond less than 1000000000 days. *)
Definition timedelta : Type := Z.

Definition timedelta_min : timedelta := - 999999999 * us_per_day.
Definition timedelta_max : timedelta := 1000000000 * us_per_day - 1.

Definition in_timedelta_range (td : Z) : bool :=
  (timedelta_min <=? td) && (td <=? timedelta_max).

(** [timedelta(minutes=m)] for a small int [m]. *)
Definition timedelta_minutes (m : Z) : timedelta := m * 60 * us_per_second.

(** A naive [datetime] is an instant on the local time line, counted in
    microseconds from [datetime.min], 0001-01-01T00:00:00.  The last one,
    [datetime.max], is 9999-12-31T23:59:59.999999, the last microsecond of
    day 3652059. *)
Definition datetime_max_instant : Z := 3652059 * us_per_day - 1.

Definition in_datetime_range (t : Z) : bool :=
  (0 <=? t) && (t <=? datetime_max_instant).

Record datetime : Type := mkDatetime {
  instant : Z;
  instant_in_range : in_datetime_range instant = true
}.

Coercion instant : datetime >-> Z.

Definition bool_case (b : bool) : {b = true} + {b = false} :=
  match b with
  | true => left eq_refl
  | false => right eq_refl
  end.

(** The [datetime] at an instant: [OverflowError] ("date value out of
    range") outside years 1 to 9999. *)
Definition datetime_at (t : Z) : result datetime :=
  match bool_case (in_datetime_range t) with
  | left H => Return (mkDatetime t H)
  | right _ => Raise OverflowError
  end.

(** [t + td] and [t - td] for a [datetime] and a [timedelta]. *)
Definition datetime_add (t : datetime) (td : timedelta) : result datetime :=
  datetime_at (t + td).

Definition datetime_sub (t : datetime) (td : timedelta) : result datetime :=
  datetime_at (t - td).

(** [m / d] for two positive ints, Python's true division: the double
    nearest to the quotient, ties going to the even one.  The double is
    given as [(k, s)], standing for [k / 2**s]: [s] places the quotient
    between [2**52] and [2**53], where the doubles are the whole numbers,
    and [k] is its whole part there, rounded.  No quotient of a
    [timedelta] by [10**6] leaves the exponent range of the normal
    doubles. *)
Definition true_divide (m d : Z) : Z * Z :=
  let s := if d <=? m then 52 - Z.log2 (m / d) else 53 + Z.log2 ((d - 1) / m) in
  let num := if 0 <=? s then m * 2 ^ s else m in
  let den := if 0 <=? s then d else d * 2 ^ (- s) in
  let k := num / den in
  let r := num mod den in
  (if (den <? 2 * r) || ((den =? 2 * r) && Z.odd k) then k + 1 else k, s).

(** [int(x)] for the positive double [k / 2**s]: its whole part. *)
Definition int_of_double (x : Z * Z) : Z :=
  let (k, s) := x in if 0 <=? s then k / 2 ^ s else k * 2 ^ (- s).

(** [int(td.total_seconds())]: [total_seconds()] is the microsecond count
    divided by [10**6], a double, and [int] truncates it toward zero. *)
Definition int_total_seconds (td : timedelta) : Z :=
  match td with
  | Z0 => 0
  | Zpos _ => int_of_double (true_divide td us_per_second)
  | Zneg _ => - int_of_double (true_divide (- td) us_per_second)
  end.

(** ** The world the views run in *)

(** Module-level configuration, read from the environment at import. *)
Record Config : Type := mkConfig {
  TOKEN_URL : string;
  CLIENT_ID : string;
  CLIENT_SECRET : string;
  OAUTH_USERNAME : string;
  OAUTH_PASSWORD : string;
  SCOPE : string;
  GRANT_TYPE : string;
  RESPONSE_TYPE : string
}.

(** The arguments of one [requests.post] call. *)
Record Request : Type := mkRequest {
  url : string;
  data : list (string * string);
  headers : list (string * string);
  timeout : Z
}.

(** What the view reads of a [requests.Response]: [json] is the outcome of
    [response.json()], [None] when the body does not parse. *)
Record Response : Type := mkResponse {
  status_code : Z;
  text : string;
  json : option value
}.

(** [requests.post] either raises (timeout, connection failure) or returns
    the provider's response. *)
Inductive post_outcome : Type :=
| PostRaises (e : exn)
| PostReturns (r : Response).

(** [token_cache]: the dict with the two keys ['token'] and ['expires_at']. *)
Record Cache : Type := mkCache {
  token : value;
  expires_at : option datetime
}.

(** The cache as the module creates it. *)
Definition initial_cache : Cache := {| token := VNone; expires_at := None |}.

Record World : Type := mkWorld {
  token_cache : Cache;
  clock : nat -> datetime;       (* the k-th reading of [datetime.now()] *)
  ticks : nat;                   (* clock readings taken so far *)
  provider : nat -> post_outcome; (* what the k-th [requests.post] does *)
  posts : list Request           (* requests sent so far, oldest first *)
}.

(** What a view hands back to Flask: a JSON body and an HTTP status. *)
Record Reply : Type := mkReply {
  body : value;
  status : Z
}.

(** ** The monad of the views *)

Definition M (A : Type) : Type := World -> result A * World.

Definition ret {A} (a : A) : M A := fun w => (Return a, w).

Definition raise {A} (e : exn) : M A := fun w => (Raise e, w).

Definition bind {A B} (m : M A) (k : A -> M B) : M B :=
  fun w =>
    match m w with
    | (Return a, w') => k a w'
    | (Raise e, w') => (Raise e, w')
    end.

(** Lifts an expression that may raise. *)
Definition lift {A} (r : result A) : M A := fun w => (r, w).

(** [try: m  except Exception as e: handler e]: total, the handler's reply
    stands for the view when [m] raises. *)
Definition try_except {A} (m : M A) (handler : exn -> A) : World -> A * World :=
  fun w =>
    match m w with
    | (Return a, w') => (a, w')
    | (Raise e, w') => (handler e, w')
    end.

Declare Scope py_scope.
Delimit Scope py_scope with py.
Notation "x <- m ;; k" := (bind m (fun x => k))
  (at level 61, m at next level, right associativity) : py_scope.
Notation "m ;;; k" := (bind m (fun _ => k))
  (at level 61, right associativity) : py_scope.
Open Scope py_scope.

(** [datetime.now()]: the next reading of the clock. *)
Definition datetime_now : M datetime :=
  fun w =>
    (Return (clock w (ticks w)),
     mkWorld (token_cache w) (clock w) (S (ticks w)) (provider w) (posts w)).

(** [requests.post(...)]: the request goes out, then the provider's answer
    to it comes back or the call raises. *)
Definition requests_post (req : Request) : M Response :=
  fun w =>
    let w' := mkWorld (token_cache w) (clock w) (ticks w) (provider w) (posts w ++ [req])%list in
    match provider w (List.length (posts w)) with
    | PostRaises e => (Raise e, w')
    | PostReturns r => (Return r, w')
    end.

(** [response.json()]. *)
Definition response_json (r : Response) : M value :=
  match json r with
  | Some v => ret v
  | None => raise JSONDecodeError
  end.

Definition read_cache : M Cache := fun w => (Return (token_cache w), w).

(** [token_cache['token'] = v]. *)
Definition set_token (v : value) : M unit :=
  fun w =>
    (Return tt,
     mkWorld (mkCache v (expires_at (token_cache w)))
             (clock w) (ticks w) (provider w) (posts w)).

(** [token_cache['expires_at'] = t]. *)
Definition set_expires_at (t : datetime) : M unit :=
  fun w =>
    (Return tt,
     mkWorld (mkCache (token (token_cache w)) (Some t))
             (clock w) (ticks w) (provider w) (posts w)).

(** [jsonify({...})]: the dict becomes the JSON body of the reply. *)
Definition jsonify (entries : list (string * value)) : value := VDict entries.

(** ** Start-up *)

(** [os.environ] once [load_dotenv()] has run: [os.getenv(name)] is the
    value of a set variable and [None] for an unset one. *)
Definition environ : Type := string -> option string.

(** [os.getenv(name, default)]: the default stands in for an unset
    variable only; a variable set to the empty string stays empty. *)
Definition getenv_or (env : environ) (name default : string) : string :=
  match env name with
  | Some v => v
  | None => default
  end.

(** Line 35, [int(os.getenv('PORT', 5000))]: the default is the int 5000
    already; a variable that is set is a [str], which [int] parses or
    rejects.  [int_of_str] is [int] on a [str]. *)
Definition server_port (int_of_str : string -> result Z) (env : environ) : result Z :=
  match env "PORT" with
  | Some port => int_of_str port
  | None => Return 5000
  end.

(** Lines 23-39: the OAuth configuration.  Lines 23-34 raise nothing; what
    line 35 raises ends the import before the check of line 38; then the
    [ValueError] of line 39 unless [all([...])] finds the four credentials
    truthy, that is set and not empty. *)
Definition load_config (int_of_str : string -> result Z) (env : environ) : result Config :=
  match server_port int_of_str env with
  | Return _ =>
      match env "CLIENT_ID", env "CLIENT_SECRET", env "OAUTH_USERNAME", env "OAUTH_PASSWORD" with
      | Some client_id, Some client_secret, Some username, Some password =>
          if negb (client_id =? "")%string && negb (client_secret =? "")%string &&
             negb (username =? "")%string && negb (password =? "")%string
          then Return
                 {| TOKEN_URL := getenv_or env "TOKEN_URL" "https://login.mzoneweb.net/connect/token";
                    CLIENT_ID := client_id;
                    CLIENT_SECRET := client_secret;
                    OAUTH_USERNAME := username;
                    OAUTH_PASSWORD := password;
                    SCOPE := getenv_or env "SCOPE" "mz6-api.all mz_username";
                    GRANT_TYPE := getenv_or env "GRANT_TYPE" "password";
                    RESPONSE_TYPE := getenv_or env "RESPONSE_TYPE" "code id_token" |}
          else Raise ValueError
      | _, _, _, _ => Raise ValueError
      end
  | Raise e => Raise e
  end.

(** A credential as line 38 wants it. *)
Definition credential_given (env : environ) (name : string) : bool :=
  match env name with
  | Some v => negb (v =? "")%string
  | None => false
  end.

(** ** Texts

    A Python [str] is modelled as a Rocq [string], character by character.
    The functions below are the [str] methods the two scripts of the
    repository use. *)

Module Str.

(** [c in s] for a single character. *)
Fixpoint has_char (c : ascii) (s : string) : bool :=
  match s with
  | EmptyString => false
  | String c' rest => Ascii.eqb c c' || has_char c rest
  end.

(** [s[n:]]. *)
Fixpoint drop (n : nat) (s : string) : string :=
  match n, s with
  | O, _ => s
  | S _, EmptyString => EmptyString
  | S k, String _ rest => drop k rest
  end.

(** [p in s]: [p] occurs in [s] as a substring. *)
Fixpoint contains (p s : string) : bool :=
  prefix p s ||
  match s with
  | EmptyString => false
  | String _ rest => contains p rest
  end.

(** [s.replace(old, new)] for a non-empty [old], scanning left to right and
    resuming after each occurrence; [fuel] bounds the characters left. *)
Fixpoint replace_from (fuel : nat) (old new s : string) : string :=
  match fuel with
  | O => s
  | S fuel' =>
      if prefix old s then new ++ replace_from fuel' old new (drop (length old) s)
      else match s with
           | EmptyString => EmptyString
           | String c rest => String c (replace_from fuel' old new rest)
           end
  end.

(** [s.replace("", new)] puts [new] before every character and at the end. *)
Fixpoint insert_everywhere (new s : string) : string :=
  new ++ match s with
         | EmptyString => EmptyString
         | String c rest => String c (insert_everywhere new rest)
         end.

Definition replace (old new s : string) : string :=
  match old with
  | EmptyString => insert_everywhere new s
  | String _ _ => replace_from (length s) old new s
  end.

Definition newline : ascii := "010"%char.

(** [s.split('\n')]: never empty, one more piece than there are newlines. *)
Fixpoint split_lines (s : string) : list string :=
  match s with
  | EmptyString => [EmptyString]
  | String c rest =>
      if Ascii.eqb c newline then EmptyString :: split_lines rest
      else match split_lines rest with
           | line :: lines => String c line :: lines
           | [] => [String c EmptyString]
           end
  end.

(** ['\n'.join(lines)]. *)
Fixpoint join_lines (lines : list string) : string :=
  match lines with
  | [] => EmptyString
  | [line] => line
  | line :: rest => line ++ String newline (join_lines rest)
  end.

(** [s[:n]]. *)
Fixpoint take (n : nat) (s : string) : string :=
  match n, s with
  | O, _ => EmptyString
  | S _, EmptyString => EmptyString
  | S k, String c rest => String c (take k rest)
  end.

(** [s.count('\n')]. *)
Fixpoint count_newlines (s : string) : nat :=
  match s with
  | EmptyString => O
  | String c rest =>
      if Ascii.eqb c newline then S (count_newlines rest) else count_newlines rest
  end.

(** [s.endswith(suffix)]. *)
Definition endswith (s suffix : string) : bool :=
  (drop (length s - length suffix)%nat s =? suffix)%string.

End Str.
Import Str.

(** ** build_production.py *)

(** Lines 25-30. *)
Definition critical_errors : list string :=
  [ "Backend authentication failed";
    "BACKEND SERVER NOT RUNNING";
    "Failed to fetch OAuth token";
    "Token auto-refresh failed" ].

(** Line 45: [any(error_msg in line for error_msg in critical_errors)]. *)
Definition is_critical (line : string) : bool :=
  existsb (fun error_msg => contains error_msg line) critical_errors.

(** Lines 43-52, the body of the loop: what becomes of one line. *)
Definition rewrite_line (line : string) : string :=
  if contains "console.error(" line && negb (is_critical line)
  then replace "console.error(" "debugError(" line
  else line.

(** Lines 32-54, from the text read to the text written.  The two patterns
    of [re.sub] match one fixed text each ([console\.log\(] matches
    [console.log(] and nothing else) and the replacements hold no group
    reference, so each [re.sub] is the [str.replace] of that text. *)
Definition optimize_content (content : string) : string :=
  let content := replace "console.log(" "debugLog(" content in
  let content := replace "console.warn(" "debugError(" content in
  join_lines (map rewrite_line (split_lines content)).

(** The three replacements applied to one line. *)
Definition optimize_line (line : string) : string :=
  rewrite_line
    (replace "console.warn(" "debugError(" (replace "console.log(" "debugLog(" line)).

(** The files of the working directory: what each path holds, as stored. *)
Definition files : Type := string -> option string.

Definition write_file (path content : string) (fs : files) : files :=
  fun p => if (p =? path)%string then Some content else fs p.

(** [shutil.copy(src, dst)] for two file paths: raises when [src] does not
    exist. *)
Definition copy (src dst : string) (fs : files) : option files :=
  match fs src with
  | Some stored => Some (write_file dst stored fs)
  | None => None
  end.

(** Lines 10-57.  [read_text] is what [open(input_file, 'r',
    encoding='utf-8').read()] makes of the stored file (decoding and
    newline translation; [None] when it raises), [write_text] what
    [f.write] stores for a text.  An exception ends the script: [None].
    What the function prints is left out. *)
Definition optimize_js_for_production
    (read_text : string -> option string) (write_text : string -> string)
    (input_file : string) (output_file : option string) (fs : files) : option files :=
  let output_file :=
    match output_file with
    | None => input_file
    | Some path => path
    end in
  match fs input_file with
  | Some stored =>
      match read_text stored with
      | Some content => Some (write_file output_file (write_text (optimize_content content)) fs)
      | None => None
      end
  | None => None
  end.

(** Lines 66-70, relative to the directory of the script. *)
Definition map_js : string := "js/map.js".
Definition backup : string := "js/map.js.backup".

(** Lines 64-79, the script run once. *)
Definition build (read_text : string -> option string) (write_text : string -> string)
    (fs : files) : option files :=
  match copy map_js backup fs with
  | Some fs' => optimize_js_for_production read_text write_text map_js None fs'
  | None => None
  end.

(** ** pre_commit_check.py *)

Definition double_quote : string := String "034"%char "".

(** Lines 16-22, the raw strings as written. *)
Definition DANGER_PATTERNS : list string :=
  [ "password\s*=\s*[" ++ double_quote ++ "\'][^" ++ double_quote ++ "\']{6,}["
      ++ double_quote ++ "\']";
    "client_secret\s*=\s*[" ++ double_quote ++ "\'][^" ++ double_quote ++ "\']{10,}["
      ++ double_quote ++ "\']";
    "ScopeUKAPI01";
    "g_SkQ\.B\.z3TeBU";
    "oauth_password\s*=\s*[" ++ double_quote ++ "\'][^" ++ double_quote ++ "\']+["
      ++ double_quote ++ "\']" ].

(** Line 25. *)
Definition FILE_PATTERNS : list string := [".py"; ".js"; ".html"; ".json"; ".yaml"; ".yml"].

(** What [subprocess.run(['git', 'diff', '--cached', '--name-only'], ...,
    check=True)] comes to: the output of a run that exits with status 0,
    [CalledProcessError] for another exit status, or any other exception
    (no [git] to run, output that does not decode). *)
Variant git_diff : Type :=
| GitOutput (stdout : string)
| GitFails
| GitRaises.

(** A finding, the dict of lines 54-59. *)
Record Finding : Type := {
  file : string;
  line_num : nat;
  pattern : string;
  matched : string
}.

(** The two scripts read no clock and keep no state; what they see of the
    outside is a parameter: [strip] is [str.strip], [open_read] is
    [open(filepath, 'r', encoding='utf-8').read()] ([None] when it raises),
    and [finditer pattern content] lists, in order, [match.start()] and
    [match.group()] of the matches of
    [re.finditer(pattern, content, re.IGNORECASE)]. *)
Section Scanner.

Variable strip : string -> string.
Variable open_read : string -> option string.
Variable finditer : string -> string -> list (nat * string).

(** Lines 27-38.  [None]: an exception other than [CalledProcessError]
    leaves the function. *)
Definition get_staged_files (git : git_diff) : option (list string) :=
  match git with
  | GitOutput stdout => Some (split_lines (strip stdout))
  | GitFails => Some []
  | GitRaises => None
  end.

(** Lines 40-64. *)
Definition check_file_for_secrets (filepath : string) : list Finding :=
  if negb (existsb (fun ext => endswith filepath ext) FILE_PATTERNS) then []
  else
    match open_read filepath with
    | Some content =>
        flat_map
          (fun pattern =>
             map (fun m =>
                    {| file := filepath;
                       line_num := (count_newlines (take (fst m) content) + 1)%nat;
                       pattern := pattern;
                       matched := snd m |})
                 (finditer pattern content))
          DANGER_PATTERNS
    | None => []
    end.

(** Lines 66-99: the value [main] returns; [None] when an exception leaves
    it.  What it prints is left out. *)
Definition main (git : git_diff) : option Z :=
  match get_staged_files git with
  | Some staged_files =>
      match staged_files with
      | [] | [EmptyString] => Some 0
      | _ =>
          match flat_map check_file_for_secrets staged_files with
          | [] => Some 0
          | _ :: _ => Some 1
          end
      end
  | None => None
  end.

(** Lines 101-102, [sys.exit(main())]: the exit status of the script, which
    is 1 when an exception ends it.  Git commits when the status of the
    hook is 0. *)
Definition exit_status (git : git_diff) : Z :=
  match main git with
  | Some status => status
  | None => 1
  end.

End Scanner.

(** ** Sample data *)

(** Stand-ins for the library functions the start-up and the views are
    parametric in: no float is converted, a date prints as its count of
    microseconds, and an int is read from plain decimal digits. *)
Definition no_floats (f : spec_float) : result timedelta := Raise ValueError.
Definition microsecond_count (t : datetime) : string := str_int t.

Definition decimal_int (s : string) : result Z :=
  match NilZero.int_of_string s with
  | Some n => Return (Z.of_int n)
  | None => Raise ValueError
  end.

Definition sample_cfg : Config :=
  {| TOKEN_URL := "https://login.mzoneweb.net/connect/token";
     CLIENT_ID := "client";
     CLIENT_SECRET := "secret";
     OAUTH_USERNAME := "user";
     OAUTH_PASSWORD := "password";
     SCOPE := "mz6-api.all mz_username";
     GRANT_TYPE := "password";
     RESPONSE_TYPE := "code id_token" |}.

(** An environment that sets the four credentials and nothing else, and
    one that sets a blank [PORT] besides. *)
Definition sample_env : environ :=
  fun name =>
    if (name =? "CLIENT_ID")%string then Some "client"
    else if (name =? "CLIENT_SECRET")%string then Some "secret"
    else if (name =? "OAUTH_USERNAME")%string then Some "user"
    else if (name =? "OAUTH_PASSWORD")%string then Some "password"
    else None.

Definition blank_port_env : environ :=
  fun name => if (name =? "PORT")%string then Some "" else sample_env name.

(** [{"access_token": "abc123", "expires_in": 1200}], the body of the
    specification's scenario. *)
Definition token_response : Response :=
  {| status_code := 200;
     text := "{...}";
     json := Some (VDict [("access_token", VStr "abc123"); ("expires_in", VInt 1200)]) |}.

(** [{"access_token": "abc123", "expires_in": "1200"}]: the lifetime sent as
    a JSON string. *)
Definition string_expiry_response : Response :=
  {| status_code := 200;
     text := "{...}";
     json := Some (VDict [("access_token", VStr "abc123"); ("expires_in", VStr "1200")]) |}.

(** [{"access_token": "abc123", "expires_in": 300}]: a token granted for
    five minutes. *)
Definition short_lived_response : Response :=
  {| status_code := 200;
     text := "{...}";
     json := Some (VDict [("access_token", VStr "abc123"); ("expires_in", VInt 300)]) |}.

(** [{"access_token": "", "expires_in": 3600}]: an empty token. *)
Definition empty_token_response : Response :=
  {| status_code := 200;
     text := "{...}";
     json := Some (VDict [("access_token", VStr ""); ("expires_in", VInt 3600)]) |}.

(** [{"access_token": "abc123", "expires_in": 1000000000000}]: a lifetime
    [timedelta] accepts and that ends after year 9999. *)
Definition far_future_response : Response :=
  {| status_code := 200;
     text := "{...}";
     json := Some (VDict [("access_token", VStr "abc123"); ("expires_in", VInt 1000000000000)]) |}.

(** [{"access_token": "abc123", "expires_in": -63839663940}]: a negative
    lifetime that, granted on 2024-01-01T00:00:00, ends one minute after
    [datetime.min]. *)
Definition far_past_response : Response :=
  {| status_code := 200;
     text := "{...}";
     json := Some (VDict [("access_token", VStr "abc123"); ("expires_in", VInt (-63839663940))]) |}.

(** [{"token_type": "Bearer"}]: a 200 without [access_token]. *)
Definition tokenless_response : Response :=
  {| status_code := 200;
     text := "{...}";
     json := Some (VDict [("token_type", VStr "Bearer")]) |}.

(** A 200 whose body is not JSON. *)
Definition html_response : Response :=
  {| status_code := 200; text := "<html>"; json := None |}.

(** A 401 of the provider. *)
Definition unauthorized_response : Response :=
  {| status_code := 401; text := "invalid_client"; json := None |}.

(** The [datetime] at an instant of the range, [datetime.min] for any
    other. *)
Definition clipped (t : Z) : datetime :=
  match datetime_at t with
  | Return d => d
  | Raise _ => mkDatetime 0 eq_refl
  end.

(** 2024-01-01T00:00:00, the first instant of day 738886 of the calendar,
    and the instant [us] microseconds later. *)
Definition new_year : datetime := clipped (738885 * us_per_day).

Definition later (us : Z) : datetime := clipped (new_year + us).

(** A world at its first clock reading, nothing sent yet. *)
Definition fresh_world (c : Cache) (clk : nat -> datetime) (answer : post_outcome) : World :=
  {| token_cache := c; clock := clk; ticks := 0; provider := fun _ => answer; posts := [] |}.

(** A clock that starts at [t0] and gains one second per reading. *)
Definition ticking_from (t0 : datetime) (k : nat) : datetime :=
  clipped (t0 + Z.of_nat k * us_per_second).

(** A clock stopped at [t0]. *)
Definition stopped_at (t0 : datetime) (k : nat) : datetime := t0.

(** [abc123] cached, to expire [1000.5] seconds after new year. *)
Definition half_second_cache : Cache :=
  {| token := VStr "abc123"; expires_at := Some (later 1000500000) |}.

(** [abc123] cached without an expiry. *)
Definition token_only_cache : Cache :=
  {| token := VStr "abc123"; expires_at := None |}.

(** An empty token cached, to expire [1000.5] seconds after new year. *)
Definition empty_token_cache : Cache :=
  {| token := VStr ""; expires_at := Some (later 1000500000) |}.

(** [abc123] cached, to expire [2**35] seconds less one microsecond after
    new year, in the year 3112. *)
Definition long_lived_cache : Cache :=
  {| token := VStr "abc123"; expires_at := Some (later (2 ^ 35 * us_per_second - 1)) |}.

(** The worlds of the examples: a valid cache in front of a provider that
    times out, and an empty cache in front of each sample answer. *)
Definition cached_world : World :=
  fresh_world half_second_cache (stopped_at new_year) (PostRaises Timeout).

Definition first_call (answer : post_outcome) : World :=
  fresh_world initial_cache (ticking_from new_year) answer.

(** A script of three lines: a log call, a critical error and another
    error; and a script without console calls. *)
Definition sample_script : string :=
  "console.log('start');" ++ String newline
    ("console.error('Backend authentication failed');" ++ String newline
       "console.error('no tags');").

Definition plain_script : string :=
  "// console output is off" ++ String newline "let tags = [];".

(** Files stored as the text they hold, and a directory with [map.js]
    alone, before a build, after one and after two. *)
Definition read_as_stored (stored : string) : option string := Some stored.
Definition write_as_given (text : string) : string := text.

Definition sample_files : files :=
  fun path => if (path =? map_js)%string then Some sample_script else None.

Definition built_once : files :=
  write_file map_js (optimize_content sample_script)
    (write_file backup sample_script sample_files).


(** A working tree with one file, and a matcher that finds the one match
    in it. *)
Definition sample_tree (filepath : string) : option string :=
  if (filepath =? "config.py")%string
  then Some ("import os" ++ String newline "SECRET = 'ScopeUKAPI01'")
  else None.

Definition sample_finditer (pattern content : string) : list (nat * string) :=
  if (pattern =? "ScopeUKAPI01")%string then [(20%nat, "ScopeUKAPI01")] else [].

Definition sample_finding : Finding :=
  {| file := "config.py";
     line_num := 2;
     pattern := "ScopeUKAPI01";
     matched := "ScopeUKAPI01" |}.

(** ** The views *)

Section Views.

(** [timedelta(seconds=f)] for a float [f]: CPython's conversion of a double
    to whole microseconds, or the exception it raises (nan, infinity, a
    value out of range). *)
Variable timedelta_seconds_float : spec_float -> result timedelta.

(** [int(s)] for a [str], read by line 35 at start-up. *)
Variable int_of_str : string -> result Z.

(** [dt.isoformat()]. *)
Variable isoformat : datetime -> string.

Variable cfg : Config.

(** [timedelta(seconds=v)]: an int (a bool is one) counts whole seconds and
    is an [OverflowError] when they leave the range of the type, a float
    goes through the C conversion, anything else is a [TypeError]. *)
Definition timedelta_seconds (v : value) : result timedelta :=
  match v with
  | VInt n =>
      if in_timedelta_range (n * us_per_second) then Return (n * us_per_second)
      else Raise OverflowError
  | VBool b => Return ((if b then 1 else 0) * us_per_second)
  | VFloat f => timedelta_seconds_float f
  | _ => Raise TypeError
  end.

(** The form fields and the call of lines 100-115. *)
Definition payload : list (string * string) :=
  [ ("client_id", CLIENT_ID cfg);
    ("client_secret", CLIENT_SECRET cfg);
    ("username", OAUTH_USERNAME cfg);
    ("password", OAUTH_PASSWORD cfg);
    ("scope", SCOPE cfg);
    ("grant_type", GRANT_TYPE cfg);
    ("response_type", RESPONSE_TYPE cfg) ].

Definition token_request : Request :=
  {| url := TOKEN_URL cfg;
     data := payload;
     headers := [("Content-Type", "application/x-www-form-urlencoded")];
     timeout := 10 |}.

(** Lines 86-94: the reply served from the cache, or [None] when control
    falls through to the fetch.  The clock is read once for the comparison,
    before the five minutes are taken off the expiry, and once more for
    [expires_in]. *)
Definition cached_reply : M (option Reply) :=
  c <- read_cache ;;
  match expires_at c with
  | Some expires =>
      if truthy (token c) then
        now <- datetime_now ;;
        limit <- lift (datetime_sub expires (timedelta_minutes 5)) ;;
        if now <? limit then
          now' <- datetime_now ;;
          ret (Some {| body := jsonify
                         [ ("success", VBool true);
                           ("access_token", token c);
                           ("expires_in", VInt (int_total_seconds (expires - now')));
                           ("cached", VBool true) ];
                       status := 200 |})
        else ret None
      else ret None
  | None => ret None
  end.

(** Lines 96-144: the fetch from the identity provider.  What the view
    prints under [DEBUG_MODE] is left out. *)
Definition fetch_token : M Reply :=
  response <- requests_post token_request ;;
  if status_code response =? 200 then
    data <- response_json response ;;
    access_token <- lift (getitem data "access_token") ;;
    set_token access_token ;;;
    expires_in <- lift (get data "expires_in" (VInt 3600)) ;;
    now <- datetime_now ;;
    delta <- lift (timedelta_seconds expires_in) ;;
    expires <- lift (datetime_add now delta) ;;
    set_expires_at expires ;;;
    ret {| body := jsonify
             [ ("success", VBool true);
               ("access_token", access_token);
               ("expires_in", expires_in);
               ("cached", VBool false) ];
           status := 200 |}
  else
    ret {| body := jsonify
             [ ("success", VBool false);
               ("error", VStr ("Token request failed: " ++ str_int (status_code response))%string);
               ("detail", VStr (text response)) ];
           status := status_code response |}.

(** Lines 146-152: the reply of the [except Exception] clause. *)
Definition internal_server_error (e : exn) : Reply :=
  {| body := jsonify
       [ ("success", VBool false);
         ("error", VStr "Internal server error") ];
     status := 500 |}.

(** [get_token()], the view of [GET /api/token]. *)
Definition get_token : World -> Reply * World :=
  try_except
    (hit <- cached_reply ;;
     match hit with
     | Some reply => ret reply
     | None => fetch_token
     end)
    internal_server_error.

(** [health_check()], the view of [GET /api/health]. *)
Definition health_check (w : World) : Reply * World :=
  ({| body := jsonify
        [ ("status", VStr "healthy");
          ("token_cached", VBool (is_not_None (token (token_cache w))));
          ("token_expires_at",
           match expires_at (token_cache w) with
           | Some expires => VStr (isoformat expires)
           | None => VNone
           end) ];
      status := 200 |}, w).

(** ** Vocabulary of the properties *)

(** The test of lines 87-88 on a world: true for a truthy token with an
    expiry that the next clock reading is more than five minutes before,
    false for any other cache, unless the expiry is within five minutes of
    [datetime.min], when taking the five minutes off raises. *)
Definition cache_valid (w : World) : result bool :=
  match expires_at (token_cache w) with
  | Some expires =>
      if truthy (token (token_cache w)) then
        match datetime_sub expires (timedelta_minutes 5) with
        | Return limit => Return (clock w (ticks w) <? limit)
        | Raise e => Raise e
        end
      else Return false
  | None => Return false
  end.

(** Clock readings the test of lines 87-88 takes: line 88 runs only when
    line 87 found a truthy token and an expiry. *)
Definition check_readings (c : Cache) : nat :=
  match expires_at c with
  | Some _ => if truthy (token c) then 1%nat else 0%nat
  | None => 0%nat
  end.

(** The world after [n] more clock readings. *)
Definition advance (n : nat) (w : World) : World :=
  mkWorld (token_cache w) (clock w) (n + ticks w) (provider w) (posts w).

(** The world after the token request went out. *)
Definition sent (w : World) : World :=
  mkWorld (token_cache w) (clock w) (ticks w) (provider w)
          (posts w ++ [token_request])%list.

(** The fetch with its [except] clause, as [get_token] runs it on a miss. *)
Definition fetch (w : World) : Reply * World :=
  try_except fetch_token internal_server_error w.

(** Line 123, [datetime.now() + timedelta(seconds=expires_in)]: the expiry
    of a token granted at [now], when both the duration and the date
    exist. *)
Definition expiry_after (now : datetime) (expires_in : value) : result datetime :=
  match timedelta_seconds expires_in with
  | Return delta => datetime_add now delta
  | Raise e => Raise e
  end.

(** Every way the fetch can end: the generic failure with nothing stored
    (the post raised, the body was no JSON or had no [access_token]), the
    provider's refusal, the failure after the token alone was stored (no
    duration or no date for the expiry), and the success. *)
Variant fetched (w : World) : Reply * World -> Prop :=
| fetched_failed (e : exn) :
    fetched w (internal_server_error e, sent w)
| fetched_refused (r : Response) :
    provider w (List.length (posts w)) = PostReturns r ->
    status_code r <> 200 ->
    fetched w
      ({| body := jsonify
            [ ("success", VBool false);
              ("error", VStr ("Token request failed: " ++ str_int (status_code r))%string);
              ("detail", VStr (text r)) ];
          status := status_code r |},
       sent w)
| fetched_token_only (r : Response) (d access_token expires_in : value) (e : exn) :
    provider w (List.length (posts w)) = PostReturns r ->
    status_code r = 200 ->
    json r = Some d ->
    getitem d "access_token" = Return access_token ->
    get d "expires_in" (VInt 3600) = Return expires_in ->
    expiry_after (clock w (ticks w)) expires_in = Raise e ->
    fetched w
      (internal_server_error e,
       mkWorld (mkCache access_token (expires_at (token_cache w)))
               (clock w) (S (ticks w)) (provider w) (posts w ++ [token_request])%list)
| fetched_stored (r : Response) (d access_token expires_in : value) (expires : datetime) :
    provider w (List.length (posts w)) = PostReturns r ->
    status_code r = 200 ->
    json r = Some d ->
    getitem d "access_token" = Return access_token ->
    get d "expires_in" (VInt 3600) = Return expires_in ->
    expiry_after (clock w (ticks w)) expires_in = Return expires ->
    fetched w
      ({| body := jsonify
            [ ("success", VBool true);
              ("access_token", access_token);
              ("expires_in", expires_in);
              ("cached", VBool false) ];
          status := 200 |},
       mkWorld (mkCache access_token (Some expires))
               (clock w) (S (ticks w)) (provider w) (posts w ++ [token_request])%list).

(** A field of the JSON object a reply carries. *)
Definition reply_field (key : string) (r : Reply) : option value :=
  match body r with
  | VDict entries => lookup key entries
  | _ => None
  end.

(** The remaining lifetime rounded up to whole seconds, as the
    specification words [expiresInSeconds] on a cache hit. *)
Definition ceil_seconds (td : timedelta) : Z := - ((- td) / us_per_second).

(** A provider answer the fetch can store whole at [now]: a 200 response
    whose JSON body has an [access_token] carries one that is not null and
    an [expires_in] that is absent or a number [timedelta] accepts and
    that, added to [now], gives a date of the years 1 to 9999. *)
Definition storable (now : datetime) (o : post_outcome) : bool :=
  match o with
  | PostRaises _ => true
  | PostReturns r =>
      if status_code r =? 200 then
        match json r with
        | Some d =>
            match getitem d "access_token" with
            | Return access_token =>
                is_not_None access_token &&
                match get d "expires_in" (VInt 3600) with
                | Return expires_in =>
                    match expiry_after now expires_in with
                    | Return _ => true
                    | Raise _ => false
                    end
                | Raise _ => false
                end
            | Raise _ => true
            end
        | None => true
        end
      else true
  end.

(** The states of the cache a server can be in: the initial one, and any
    reached by serving a request, whatever the clock and the provider do. *)
Inductive reachable : Cache -> Prop :=
| reachable_start : reachable initial_cache
| reachable_get_token (w : World) :
    reachable (token_cache w) ->
    reachable (token_cache (snd (get_token w)))
| reachable_health_check (w : World) :
    reachable (token_cache w) ->
    reachable (token_cache (snd (health_check w))).

(** The same, when every answer of the provider is [storable] at the clock
    reading a fetch would take. *)
Inductive reachable_storable : Cache -> Prop :=
| storable_start : reachable_storable initial_cache
| storable_get_token (w : World) :
    reachable_storable (token_cache w) ->
    storable (clock w (check_readings (token_cache w) + ticks w))
             (provider w (List.length (posts w))) = true ->
    reachable_storable (token_cache (snd (get_token w)))
| storable_health_check (w : World) :
    reachable_storable (token_cache w) ->
    reachable_storable (token_cache (snd (health_check w))).

(** The two API routes of the server, and the server answering a list of
    requests to them one after the other. *)
Inductive route : Type :=
| api_token
| api_health.

Definition dispatch (r : route) (w : World) : Reply * World :=
  match r with
  | api_token => get_token w
  | api_health => health_check w
  end.

Fixpoint serve (requests : list route) (w : World) : list Reply * World :=
  match requests with
  | [] => ([], w)
  | r :: rest =>
      let (reply, w') := dispatch r w in
      let (replies, w'') := serve rest w' in
      (reply :: replies, w'')
  end.

(** How many of the requests go to [/api/token]. *)
Fixpoint token_calls (requests : list route) : nat :=
  match requests with
  | [] => 0
  | api_token :: rest => S (token_calls rest)
  | api_health :: rest => token_calls rest
  end.

(** ** How a call runs *)

Lemma instant_bounds (t : datetime) : 0 <= t <= datetime_max_instant.
Proof.
  pose proof (instant_in_range t) as H. unfold in_datetime_range in H.
  apply andb_true_iff in H. destruct H as [H0 H1]. split; [apply Z.leb_le|apply Z.leb_le]; assumption.
Qed.

Lemma datetime_eq (a b : datetime) : instant a = instant b -> a = b.
Proof.
  destruct a as [x Hx], b as [y Hy]. cbn [instant]. intros ->.
  f_equal. apply (UIP_dec Bool.bool_dec).
Qed.

Lemma datetime_at_return (t : Z) (d : datetime) :
  datetime_at t = Return d -> instant d = t.
Proof.
  unfold datetime_at. destruct (bool_case (in_datetime_range t)); [|discriminate].
  intros H. injection H as <-. reflexivity.
Qed.

Lemma datetime_at_raise (t : Z) (e : exn) :
  datetime_at t = Raise e -> in_datetime_range t = false /\ e = OverflowError.
Proof.
  unfold datetime_at. destruct (bool_case (in_datetime_range t)); [discriminate|].
  intros H. injection H as <-. split; [assumption|reflexivity].
Qed.

Lemma datetime_at_in_range (t : Z) :
  0 <= t <= datetime_max_instant -> exists d, datetime_at t = Return d /\ instant d = t.
Proof.
  intros [H0 H1]. unfold datetime_at.
  destruct (bool_case (in_datetime_range t)) as [H|H].
  - eexists. split; reflexivity.
  - unfold in_datetime_range in H. apply andb_false_iff in H.
    destruct H as [H|H]; apply Z.leb_gt in H; lia.
Qed.

(** Two dates are less than [2**53] seconds apart. *)
Lemma datetime_span (a b : datetime) :
  - (2 ^ 53 * us_per_second) < a - b < 2 ^ 53 * us_per_second.
Proof.
  pose proof (instant_bounds a). pose proof (instant_bounds b).
  assert (datetime_max_instant < 2 ^ 53 * us_per_second) by reflexivity.
  lia.
Qed.

Section TrueDivide.

Variables (m d : Z).
Hypothesis m_pos : 0 < m.
Hypothesis d_pos : 0 < d.

Lemma true_divide_shift (b : Z) :
  0 <= b -> m < 2 ^ b * d -> 53 - b <= snd (true_divide m d).
Proof.
  intros Hb Hm. unfold true_divide. cbn [snd].
  destruct (Z.leb_spec d m) as [Hle|Hlt].
  - assert (Hq : 0 < m / d) by (apply Z.div_str_pos; lia).
    assert (Hu : m / d < 2 ^ b) by (apply Z.div_lt_upper_bound; lia).
    apply Z.log2_lt_pow2 in Hu; lia.
  - pose proof (Z.log2_nonneg ((d - 1) / m)). lia.
Qed.

Variable s : Z.
Hypothesis s_nonneg : 0 <= s.
Hypothesis s_shift : snd (true_divide m d) = s.

Let k := (m * 2 ^ s) / d.
Let r := (m * 2 ^ s) mod d.
Let k' := if (d <? 2 * r) || ((d =? 2 * r) && Z.odd k) then k + 1 else k.

Lemma int_of_true_divide : int_of_double (true_divide m d) = k' / 2 ^ s.
Proof.
  unfold k', r, k. revert s_shift.
  cbv beta zeta delta [true_divide]. cbn [snd]. intros ->.
  unfold int_of_double.
  destruct (Z.leb_spec 0 s) as [_|]; [reflexivity|lia].
Qed.

Lemma shift_pow_pos : 0 < 2 ^ s.
Proof. apply Z.pow_pos_nonneg; lia. Qed.

Lemma scaled_quotient_div : k / 2 ^ s = m / d.
Proof.
  pose proof shift_pow_pos. unfold k.
  rewrite Z.div_div by lia.
  apply Z.div_mul_cancel_r; lia.
Qed.

Lemma scaled_quotient_eq : m * 2 ^ s = d * k + r.
Proof. unfold k, r. apply Z.div_mod. lia. Qed.

Lemma scaled_remainder_bound : 0 <= r < d.
Proof. unfold r. apply Z.mod_pos_bound. lia. Qed.

Lemma scaled_quotient_bound : m / d * 2 ^ s <= k < (m / d + 1) * 2 ^ s.
Proof.
  pose proof shift_pow_pos as Hp. pose proof scaled_quotient_div as Hk.
  pose proof (Z.div_mod k (2 ^ s) ltac:(lia)) as Hdm.
  pose proof (Z.mod_pos_bound k (2 ^ s) Hp) as Hmb.
  rewrite Hk in Hdm. nia.
Qed.

Lemma rounded_quotient_bound : k <= k' <= k + 1.
Proof. unfold k'. destruct (_ || _); lia. Qed.

Lemma true_divide_floor_le : m / d <= int_of_double (true_divide m d).
Proof.
  rewrite int_of_true_divide, <- scaled_quotient_div.
  apply Z.div_le_mono; [apply shift_pow_pos|apply rounded_quotient_bound].
Qed.

Lemma true_divide_le_ceil :
  int_of_double (true_divide m d) <= m / d + (if m mod d =? 0 then 0 else 1).
Proof.
  rewrite int_of_true_divide.
  pose proof shift_pow_pos as Hp. pose proof scaled_quotient_bound as Hk. pose proof rounded_quotient_bound as Hk'.
  pose proof scaled_quotient_eq as He. pose proof scaled_remainder_bound as Hr.
  pose proof (Z.div_mod m d ltac:(lia)) as Hm.
  destruct (Z.eqb_spec (m mod d) 0) as [Hz|Hnz].
  - rewrite Hz, Z.add_0_r in Hm.
    assert (Hr0 : r = 0).
    { unfold r. rewrite Hm at 1.
      rewrite <- Z.mul_assoc, Z.mul_comm. apply Z.mod_mul. lia. }
    assert (Hkk : k' = k).
    { unfold k'. rewrite Hr0. cbn [Z.mul].
      destruct (Z.ltb_spec d 0); [lia|].
      destruct (Z.eqb_spec d 0); [lia|]. reflexivity. }
    rewrite Hkk, scaled_quotient_div. lia.
  - apply Z.div_le_upper_bound; [lia|]. nia.
Qed.

Lemma true_divide_exact :
  d < 2 ^ (s + 1) -> int_of_double (true_divide m d) = m / d.
Proof.
  intros Hd. rewrite int_of_true_divide.
  pose proof shift_pow_pos as Hp. pose proof scaled_quotient_bound as Hk.
  pose proof scaled_quotient_eq as He. pose proof scaled_remainder_bound as Hr.
  pose proof (Z.div_mod m d ltac:(lia)) as Hm.
  pose proof (Z.mod_pos_bound m d ltac:(lia)) as Hf.
  rewrite Z.pow_add_r, Z.pow_1_r in Hd by lia.
  assert (Hk' : m / d * 2 ^ s <= k' < (m / d + 1) * 2 ^ s).
  { unfold k'.
    destruct (Z.ltb_spec d (2 * r)) as [Hup|Hno]; cbn [orb].
    - split; [lia|].
      destruct (Z.eq_dec (k + 1) ((m / d + 1) * 2 ^ s)) as [Htop|]; [|lia].
      exfalso. nia.
    - destruct (Z.eqb_spec d (2 * r)) as [Htie|]; cbn [andb]; [|lia].
      destruct (Z.odd k); [|lia].
      split; [lia|].
      destruct (Z.eq_dec (k + 1) ((m / d + 1) * 2 ^ s)) as [Htop|]; [|lia].
      exfalso. nia. }
  symmetry. apply Z.div_unique with (r := k' - m / d * 2 ^ s). left. lia. lia.
Qed.

End TrueDivide.

Lemma ceil_seconds_floor (td : timedelta) :
  ceil_seconds td =
  td / us_per_second + (if td mod us_per_second =? 0 then 0 else 1).
Proof.
  unfold ceil_seconds, us_per_second.
  destruct (Z.eqb_spec (td mod 1000000) 0) as [Hz|Hnz].
  - rewrite Z.div_opp_l_z by lia. lia.
  - rewrite Z.div_opp_l_nz by lia. lia.
Qed.

Lemma int_total_seconds_pos (td : timedelta) :
  0 < td -> int_total_seconds td = int_of_double (true_divide td us_per_second).
Proof. destruct td; try lia. reflexivity. Qed.

Lemma int_total_seconds_opp (td : timedelta) :
  int_total_seconds (- td) = - int_total_seconds td.
Proof. destruct td; cbn [int_total_seconds Z.opp]; lia. Qed.

(** Below [2**53] seconds the double is at least the whole seconds and at
    most the seconds rounded up. *)
Lemma int_total_seconds_bounds (td : timedelta) :
  0 <= td < 2 ^ 53 * us_per_second ->
  td / us_per_second <= int_total_seconds td <= ceil_seconds td.
Proof.
  intros [H0 Hb]. destruct (Z.eq_dec td 0) as [->|Hnz]; [cbn; lia|].
  rewrite int_total_seconds_pos by lia.
  assert (Hs : 53 - 53 <= snd (true_divide td us_per_second))
    by (apply true_divide_shift; solve [lia | exact eq_refl]).
  split.
  - apply true_divide_floor_le with (s := snd (true_divide td us_per_second));
      solve [lia | exact eq_refl].
  - rewrite ceil_seconds_floor.
    apply true_divide_le_ceil with (s := snd (true_divide td us_per_second));
      solve [lia | exact eq_refl].
Qed.

(** Below [2**34] seconds the double truncates to the whole seconds. *)
Lemma int_total_seconds_floor (td : timedelta) :
  0 <= td < 2 ^ 34 * us_per_second ->
  int_total_seconds td = td / us_per_second.
Proof.
  intros [H0 Hb]. destruct (Z.eq_dec td 0) as [->|Hnz]; [reflexivity|].
  rewrite int_total_seconds_pos by lia.
  assert (Hs : 53 - 34 <= snd (true_divide td us_per_second))
    by (apply true_divide_shift; solve [lia | exact eq_refl]).
  apply true_divide_exact with (s := snd (true_divide td us_per_second));
    try solve [lia | exact eq_refl].
  apply Z.lt_le_trans with (2 ^ 20); [exact eq_refl|].
  apply Z.pow_le_mono_r; lia.
Qed.

Lemma ceil_seconds_le (td n : Z) : td <= n * us_per_second -> ceil_seconds td <= n.
Proof.
  intros H. unfold ceil_seconds, us_per_second in *.
  assert (- n <= - td / 1000000); [|lia].
  apply Z.div_le_lower_bound; lia.
Qed.

(** A duration of at most [n] seconds is reported as at most [n]. *)
Lemma int_total_seconds_le (td n : Z) :
  - (2 ^ 53 * us_per_second) < td < 2 ^ 53 * us_per_second ->
  td <= n * us_per_second ->
  int_total_seconds td <= n.
Proof.
  intros [Hlo Hhi] Hn. destruct (Z.le_gt_cases 0 td) as [Hpos|Hneg].
  - pose proof (int_total_seconds_bounds td ltac:(lia)).
    pose proof (ceil_seconds_le td n Hn). lia.
  - pose proof (int_total_seconds_bounds (- td) ltac:(lia)) as [Hfl _].
    rewrite int_total_seconds_opp in Hfl.
    pose proof (ceil_seconds_le td n Hn). unfold ceil_seconds in *. lia.
Qed.

Lemma cache_valid_true (w : World) :
  cache_valid w = Return true <->
  truthy (token (token_cache w)) = true /\
  exists expires, expires_at (token_cache w) = Some expires /\
                  clock w (ticks w) < expires - timedelta_minutes 5.
Proof.
  unfold cache_valid, datetime_sub. split.
  - destruct (expires_at (token_cache w)) as [expires|]; [|discriminate].
    destruct (truthy (token (token_cache w))); [|discriminate].
    destruct (datetime_at (expires - timedelta_minutes 5)) as [limit|e] eqn:Hl; [|discriminate].
    intros H. injection H as H. apply Z.ltb_lt in H.
    apply datetime_at_return in Hl. rewrite Hl in H.
    split; [reflexivity|]. exists expires. split; [reflexivity|exact H].
  - intros [Ht [expires [He Hlt]]]. rewrite He, Ht.
    pose proof (instant_bounds (clock w (ticks w))).
    pose proof (instant_bounds expires).
    destruct (datetime_at_in_range (expires - timedelta_minutes 5)) as [limit [Hl Hi]].
    { unfold timedelta_minutes, us_per_second in *. lia. }
    rewrite Hl, Hi. f_equal. now apply Z.ltb_lt.
Qed.

Lemma initial_cache_not_valid (w : World) :
  token_cache w = initial_cache -> cache_valid w = Return false.
Proof. intros H. unfold cache_valid. rewrite H. reflexivity. Qed.

(** A token that tests false is never valid, and never makes the test
    raise. *)
Lemma falsy_token_not_valid (w : World) :
  truthy (token (token_cache w)) = false -> cache_valid w = Return false.
Proof.
  intros H. unfold cache_valid. rewrite H.
  destruct (expires_at (token_cache w)); reflexivity.
Qed.

(** The test raises nothing but the [OverflowError] of the subtraction, for
    an expiry in the first five minutes of [datetime.min]. *)
Lemma cache_valid_raise (w : World) (e : exn) :
  cache_valid w = Raise e ->
  e = OverflowError /\
  truthy (token (token_cache w)) = true /\
  exists expires, expires_at (token_cache w) = Some expires /\
                  expires < timedelta_minutes 5.
Proof.
  unfold cache_valid, datetime_sub.
  destruct (expires_at (token_cache w)) as [expires|]; [|discriminate].
  destruct (truthy (token (token_cache w))); [|discriminate].
  destruct (datetime_at (expires - timedelta_minutes 5)) as [limit|e'] eqn:Hl; [discriminate|].
  intros H. injection H as ->. apply datetime_at_raise in Hl. destruct Hl as [Hr ->].
  split; [reflexivity|]. split; [reflexivity|]. exists expires. split; [reflexivity|].
  pose proof (instant_bounds expires).
  unfold in_datetime_range in Hr. apply andb_false_iff in Hr.
  unfold timedelta_minutes, us_per_second in *.
  destruct Hr as [Hr|Hr]; apply Z.leb_gt in Hr; lia.
Qed.

(** The cache hit: two clock readings, nothing else. *)
Lemma cached_reply_hit (w : World) (expires : datetime) :
  truthy (token (token_cache w)) = true ->
  expires_at (token_cache w) = Some expires ->
  clock w (ticks w) < expires - timedelta_minutes 5 ->
  cached_reply w =
  (Return (Some {| body := jsonify
                     [ ("success", VBool true);
                       ("access_token", token (token_cache w));
                       ("expires_in",
                        VInt (int_total_seconds (expires - clock w (S (ticks w)))));
                       ("cached", VBool true) ];
                   status := 200 |}),
   advance 2 w).
Proof.
  intros Ht He Hlt.
  pose proof (instant_bounds (clock w (ticks w))).
  pose proof (instant_bounds expires).
  destruct (datetime_at_in_range (expires - timedelta_minutes 5)) as [limit [Hl Hi]].
  { unfold timedelta_minutes, us_per_second in *. lia. }
  rewrite <- Hi in Hlt. apply Z.ltb_lt in Hlt.
  unfold cached_reply, bind, read_cache. rewrite He, Ht.
  unfold datetime_now at 1. cbn [token_cache clock ticks provider posts].
  unfold lift, datetime_sub. rewrite Hl, Hlt. reflexivity.
Qed.

(** The cache miss: the check reads the clock at most once and falls
    through. *)
Lemma cached_reply_miss (w : World) :
  cache_valid w = Return false ->
  cached_reply w = (Return None, advance (check_readings (token_cache w)) w).
Proof.
  unfold cache_valid, cached_reply, check_readings, bind, read_cache, advance.
  destruct w as [[tok exp] clk t prov ps]. cbn [token_cache token expires_at clock ticks provider posts].
  destruct exp as [expires|]; [|reflexivity].
  destruct (truthy tok); [|reflexivity].
  unfold datetime_now, lift. cbn [token_cache clock ticks provider posts].
  destruct (datetime_sub expires (timedelta_minutes 5)) as [limit|e]; [|discriminate].
  intros Hlt. injection Hlt as ->. reflexivity.
Qed.

(** The check that raises: one clock reading, then the exception. *)
Lemma cached_reply_raise (w : World) (e : exn) :
  cache_valid w = Raise e ->
  cached_reply w = (Raise e, advance 1 w).
Proof.
  unfold cache_valid, cached_reply, bind, read_cache, advance.
  destruct w as [[tok exp] clk t prov ps]. cbn [token_cache token expires_at clock ticks provider posts].
  destruct exp as [expires|]; [|discriminate].
  destruct (truthy tok); [|discriminate].
  unfold datetime_now, lift. cbn [token_cache clock ticks provider posts].
  destruct (datetime_sub expires (timedelta_minutes 5)) as [limit|e']; [discriminate|].
  intros H. injection H as ->. reflexivity.
Qed.

Lemma get_token_hit (w : World) (expires : datetime) :
  truthy (token (token_cache w)) = true ->
  expires_at (token_cache w) = Some expires ->
  clock w (ticks w) < expires - timedelta_minutes 5 ->
  get_token w =
  ({| body := jsonify
        [ ("success", VBool true);
          ("access_token", token (token_cache w));
          ("expires_in",
           VInt (int_total_seconds (expires - clock w (S (ticks w)))));
          ("cached", VBool true) ];
      status := 200 |},
   advance 2 w).
Proof.
  intros Ht He Hlt. unfold get_token, try_except, bind.
  rewrite (cached_reply_hit w expires Ht He Hlt). reflexivity.
Qed.

Lemma get_token_miss (w : World) :
  cache_valid w = Return false ->
  get_token w = fetch (advance (check_readings (token_cache w)) w).
Proof.
  intros Hv. unfold get_token, fetch, try_except, bind.
  rewrite (cached_reply_miss w Hv). reflexivity.
Qed.

(** When the test raises, the [except] clause answers and nothing is
    fetched. *)
Lemma get_token_raise (w : World) (e : exn) :
  cache_valid w = Raise e ->
  get_token w = (internal_server_error e, advance 1 w).
Proof.
  intros Hv. unfold get_token, try_except, bind.
  rewrite (cached_reply_raise w e Hv). reflexivity.
Qed.

(** A dict that has the key answers [get] with the same value, and a value
    that answered a subscript is a dict, so [get] never raises after it. *)
Lemma getitem_get (d : value) (key : string) (default x : value) :
  getitem d key = Return x -> get d key default = Return x.
Proof.
  destruct d; cbn [getitem get]; try discriminate.
  destruct (lookup key entries); [trivial|discriminate].
Qed.

Lemma get_after_getitem (d : value) (key key' : string) (default x : value) :
  getitem d key = Return x -> exists y, get d key' default = Return y.
Proof.
  destruct d; cbn [getitem get]; try discriminate. intros _.
  destruct (lookup key' entries); eauto.
Qed.

(** The expiry exists when the duration and the date do. *)
Lemma expiry_after_return (now : datetime) (expires_in : value) (delta : timedelta)
    (expires : datetime) :
  timedelta_seconds expires_in = Return delta ->
  datetime_add now delta = Return expires ->
  expiry_after now expires_in = Return expires /\ instant expires = now + delta.
Proof.
  intros Ht Ha. unfold expiry_after. rewrite Ht. split; [exact Ha|].
  now apply datetime_at_return in Ha.
Qed.

Lemma expiry_after_no_duration (now : datetime) (expires_in : value) (e : exn) :
  timedelta_seconds expires_in = Raise e ->
  expiry_after now expires_in = Raise e.
Proof. intros Ht. unfold expiry_after. now rewrite Ht. Qed.

(** An int of seconds that leads from one date to another is a duration
    [timedelta] accepts. *)
Lemma timedelta_seconds_between (now : datetime) (n : Z) (expires : datetime) :
  datetime_add now (n * us_per_second) = Return expires ->
  timedelta_seconds (VInt n) = Return (n * us_per_second).
Proof.
  intros Ha. apply datetime_at_return in Ha.
  pose proof (instant_bounds now). pose proof (instant_bounds expires).
  cbn [timedelta_seconds].
  assert (Hr : in_timedelta_range (n * us_per_second) = true); [|now rewrite Hr].
  unfold in_timedelta_range. apply andb_true_iff.
  assert (timedelta_min < - datetime_max_instant) by reflexivity.
  assert (datetime_max_instant < timedelta_max) by reflexivity.
  split; apply Z.leb_le; lia.
Qed.

Ltac run_fetch Hp :=
  unfold fetch, try_except, fetch_token, bind, requests_post;
  rewrite Hp; cbn [status_code text json].

Lemma fetch_raises (w : World) (e : exn) :
  provider w (List.length (posts w)) = PostRaises e ->
  fetch w = (internal_server_error e, sent w).
Proof. intros Hp. run_fetch Hp. reflexivity. Qed.

Lemma fetch_rejected (w : World) (r : Response) :
  provider w (List.length (posts w)) = PostReturns r ->
  status_code r <> 200 ->
  fetch w =
  ({| body := jsonify
        [ ("success", VBool false);
          ("error", VStr ("Token request failed: " ++ str_int (status_code r))%string);
          ("detail", VStr (text r)) ];
      status := status_code r |},
   sent w).
Proof.
  intros Hp Hs. run_fetch Hp.
  apply Z.eqb_neq in Hs. rewrite Hs. reflexivity.
Qed.

Lemma fetch_not_json (w : World) (r : Response) :
  provider w (List.length (posts w)) = PostReturns r ->
  status_code r = 200 ->
  json r = None ->
  fetch w = (internal_server_error JSONDecodeError, sent w).
Proof.
  intros Hp Hs Hj. run_fetch Hp.
  rewrite Hs. cbn [Z.eqb Pos.eqb]. unfold response_json. rewrite Hj. reflexivity.
Qed.

Lemma fetch_no_token (w : World) (r : Response) (d : value) (e : exn) :
  provider w (List.length (posts w)) = PostReturns r ->
  status_code r = 200 ->
  json r = Some d ->
  getitem d "access_token" = Raise e ->
  fetch w = (internal_server_error e, sent w).
Proof.
  intros Hp Hs Hj Hg. run_fetch Hp.
  rewrite Hs. cbn [Z.eqb Pos.eqb]. unfold response_json. rewrite Hj.
  unfold ret, lift. rewrite Hg. reflexivity.
Qed.

(** The token is assigned before the expiry is computed: when the duration
    or the date does not exist, the new token stays next to the old
    expiry. *)
Lemma fetch_bad_lifetime (w : World) (r : Response) (d access_token expires_in : value) (e : exn) :
  provider w (List.length (posts w)) = PostReturns r ->
  status_code r = 200 ->
  json r = Some d ->
  getitem d "access_token" = Return access_token ->
  get d "expires_in" (VInt 3600) = Return expires_in ->
  expiry_after (clock w (ticks w)) expires_in = Raise e ->
  fetch w =
  (internal_server_error e,
   mkWorld (mkCache access_token (expires_at (token_cache w)))
           (clock w) (S (ticks w)) (provider w) (posts w ++ [token_request])%list).
Proof.
  intros Hp Hs Hj Hg He Ht. run_fetch Hp.
  rewrite Hs. cbn [Z.eqb Pos.eqb]. unfold response_json. rewrite Hj.
  unfold ret, lift. rewrite Hg.
  unfold set_token. cbn [token_cache clock ticks provider posts expires_at].
  rewrite He.
  unfold datetime_now. cbn [token_cache clock ticks provider posts].
  unfold expiry_after in Ht.
  destruct (timedelta_seconds expires_in) as [delta|e']; [|now injection Ht as ->].
  rewrite Ht. reflexivity.
Qed.

Lemma fetch_stored (w : World) (r : Response) (d access_token expires_in : value) (expires : datetime) :
  provider w (List.length (posts w)) = PostReturns r ->
  status_code r = 200 ->
  json r = Some d ->
  getitem d "access_token" = Return access_token ->
  get d "expires_in" (VInt 3600) = Return expires_in ->
  expiry_after (clock w (ticks w)) expires_in = Return expires ->
  fetch w =
  ({| body := jsonify
        [ ("success", VBool true);
          ("access_token", access_token);
          ("expires_in", expires_in);
          ("cached", VBool false) ];
      status := 200 |},
   mkWorld (mkCache access_token (Some expires))
           (clock w) (S (ticks w)) (provider w) (posts w ++ [token_request])%list).
Proof.
  intros Hp Hs Hj Hg He Ht. run_fetch Hp.
  rewrite Hs. cbn [Z.eqb Pos.eqb]. unfold response_json. rewrite Hj.
  unfold ret, lift. rewrite Hg.
  unfold set_token. cbn [token_cache clock ticks provider posts expires_at].
  rewrite He.
  unfold datetime_now. cbn [token_cache clock ticks provider posts].
  unfold expiry_after in Ht.
  destruct (timedelta_seconds expires_in) as [delta|e']; [|discriminate].
  rewrite Ht.
  unfold set_expires_at. cbn [token_cache clock ticks provider posts token].
  reflexivity.
Qed.

Lemma fetch_fetched (w : World) : fetched w (fetch w).
Proof.
  destruct (provider w (List.length (posts w))) as [e|r] eqn:Hp.
  - rewrite (fetch_raises w e Hp). constructor.
  - destruct (Z.eq_dec (status_code r) 200) as [Hs|Hs].
    + destruct (json r) as [d|] eqn:Hj.
      * destruct (getitem d "access_token") as [access_token|e] eqn:Hg.
        -- destruct (get_after_getitem d "access_token" "expires_in" (VInt 3600) access_token Hg)
             as [expires_in He].
           destruct (expiry_after (clock w (ticks w)) expires_in) as [expires|e] eqn:Ht.
           ++ rewrite (fetch_stored w r d access_token expires_in expires Hp Hs Hj Hg He Ht).
              econstructor; eassumption.
           ++ rewrite (fetch_bad_lifetime w r d access_token expires_in e Hp Hs Hj Hg He Ht).
              econstructor; eassumption.
        -- rewrite (fetch_no_token w r d e Hp Hs Hj Hg). constructor.
      * rewrite (fetch_not_json w r Hp Hs Hj). constructor.
    + rewrite (fetch_rejected w r Hp Hs). now constructor.
Qed.

(** A fetch sends the one token request, whatever comes back. *)
Lemma fetch_posts (w : World) :
  posts (snd (fetch w)) = (posts w ++ [token_request])%list.
Proof. destruct (fetch_fetched w); reflexivity. Qed.

(** No reply of the fetch says [cached: true]. *)
Lemma fetch_not_cached (w : World) :
  reply_field "cached" (fst (fetch w)) <> Some (VBool true).
Proof. destruct (fetch_fetched w); cbn; discriminate. Qed.

(** The three ways a call can go. *)
Lemma get_token_cases (w : World) :
  (exists expires,
     truthy (token (token_cache w)) = true /\
     expires_at (token_cache w) = Some expires /\
     clock w (ticks w) < expires - timedelta_minutes 5 /\
     cache_valid w = Return true) \/
  cache_valid w = Return false \/
  (exists e, cache_valid w = Raise e).
Proof.
  destruct (cache_valid w) as [[|]|e] eqn:Hv.
  - left. apply cache_valid_true in Hv. destruct Hv as [Ht [expires [He Hlt]]].
    exists expires. auto.
  - right. left. reflexivity.
  - right. right. eauto.
Qed.

(** ** Properties of [get_token] *)

(** C1, amended. When a token is cached that the test of line 87 takes for
    one (a truthy value, such as a non-empty string) with expiry [expires],
    and the clock reads less than [expires] minus five minutes, [get_token]
    answers 200 with [success: true], the cached token and [cached: true],
    sends nothing to the provider and leaves the cache as it was. *)
Theorem get_token_serves_cached_token (w : World) (expires : datetime) :
  truthy (token (token_cache w)) = true ->
  expires_at (token_cache w) = Some expires ->
  clock w (ticks w) < expires - timedelta_minutes 5 ->
  status (fst (get_token w)) = 200 /\
  reply_field "success" (fst (get_token w)) = Some (VBool true) /\
  reply_field "access_token" (fst (get_token w)) = Some (token (token_cache w)) /\
  reply_field "cached" (fst (get_token w)) = Some (VBool true) /\
  posts (snd (get_token w)) = posts w /\
  token_cache (snd (get_token w)) = token_cache w.
Proof.
  intros Ht He Hlt. rewrite (get_token_hit w expires Ht He Hlt).
  repeat split.
Qed.

(** C3. A reply of [get_token] says [cached: true] only when a token is
    cached and the clock read less than its expiry minus five minutes; the
    token in that reply is the cached one. *)
Theorem cached_reply_only_from_valid_cache (w : World) :
  reply_field "cached" (fst (get_token w)) = Some (VBool true) ->
  truthy (token (token_cache w)) = true /\
  (exists expires, expires_at (token_cache w) = Some expires /\
                   clock w (ticks w) < expires - timedelta_minutes 5) /\
  reply_field "access_token" (fst (get_token w)) = Some (token (token_cache w)).
Proof.
  intros Hc.
  destruct (get_token_cases w) as [[expires [Ht [He [Hlt _]]]]|[Hv|[e Hv]]].
  - split; [exact Ht|]. split; [eauto|].
    rewrite (get_token_hit w expires Ht He Hlt). reflexivity.
  - rewrite (get_token_miss w Hv) in Hc.
    now apply fetch_not_cached in Hc.
  - rewrite (get_token_raise w e Hv) in Hc. discriminate Hc.
Qed.

(** What a call leaves in the world besides its reply. *)
Lemma get_token_world (w : World) :
  clock (snd (get_token w)) = clock w /\
  provider (snd (get_token w)) = provider w /\
  posts (snd (get_token w)) =
    match cache_valid w with
    | Return false => (posts w ++ [token_request])%list
    | _ => posts w
    end.
Proof.
  destruct (get_token_cases w) as [[expires [Ht [He [Hlt Hv]]]]|[Hv|[e Hv]]]; rewrite Hv.
  - rewrite (get_token_hit w expires Ht He Hlt). repeat split.
  - rewrite (get_token_miss w Hv).
    destruct (fetch_fetched (advance (check_readings (token_cache w)) w));
      repeat split.
  - rewrite (get_token_raise w e Hv). repeat split.
Qed.

(** C7, amended. One call of [get_token] sends at most one request: none
    when the test of lines 87-88 passes, exactly one, the fixed token
    request, when it fails (no truthy token, no expiry, or a clock reading
    not more than five minutes before the expiry), and none when the test
    raises, the expiry being within five minutes of [datetime.min]; the
    call then answers 500.  From the initial cache it is always one. *)
Theorem get_token_sends_at_most_one_request (w : World) :
  posts (snd (get_token w)) =
    match cache_valid w with
    | Return true => posts w
    | Return false => (posts w ++ [token_request])%list
    | Raise _ => posts w
    end /\
  (forall e, cache_valid w = Raise e ->
             fst (get_token w) = internal_server_error e /\
             expires_at (token_cache w) <> None /\
             forall expires, expires_at (token_cache w) = Some expires ->
                             expires < timedelta_minutes 5) /\
  (List.length (posts (snd (get_token w))) <= S (List.length (posts w)))%nat /\
  (token_cache w = initial_cache ->
   posts (snd (get_token w)) = (posts w ++ [token_request])%list).
Proof.
  destruct (get_token_world w) as [_ [_ Hposts]].
  split; [|split; [|split]].
  - rewrite Hposts. destruct (cache_valid w) as [[|]|]; reflexivity.
  - intros e Hv. rewrite (get_token_raise w e Hv). split; [reflexivity|].
    apply cache_valid_raise in Hv. destruct Hv as [_ [_ [expires [He Hlt]]]].
    rewrite He. split; [discriminate|]. intros expires' H. now injection H as <-.
  - rewrite Hposts. destruct (cache_valid w) as [[|]|]; try lia.
    rewrite length_app. cbn. lia.
  - intros Hi. rewrite Hposts, (initial_cache_not_valid w Hi). reflexivity.
Qed.

(** C2, amended. On a miss, when the provider answers 200 with a JSON body
    that has an [access_token] and whose [expires_in] (3600 when absent) is
    a number of seconds [timedelta] accepts and that, added to the clock
    reading, gives a date of the years 1 to 9999, the cache is overwritten
    with the new token and that date, and the reply is 200 with
    [success: true], the new token, the provider's [expires_in] and
    [cached: false]. *)
Theorem get_token_stores_fetched_token
    (w : World) (r : Response) (d access_token expires_in : value)
    (delta : timedelta) (expires : datetime) :
  cache_valid w = Return false ->
  provider w (List.length (posts w)) = PostReturns r ->
  status_code r = 200 ->
  json r = Some d ->
  getitem d "access_token" = Return access_token ->
  get d "expires_in" (VInt 3600) = Return expires_in ->
  timedelta_seconds expires_in = Return delta ->
  datetime_add (clock w (check_readings (token_cache w) + ticks w)) delta = Return expires ->
  fst (get_token w) =
    {| body := jsonify
         [ ("success", VBool true);
           ("access_token", access_token);
           ("expires_in", expires_in);
           ("cached", VBool false) ];
       status := 200 |} /\
  token_cache (snd (get_token w)) =
    {| token := access_token; expires_at := Some expires |} /\
  instant expires = clock w (check_readings (token_cache w) + ticks w) + delta.
Proof.
  intros Hv Hp Hs Hj Hg He Ht Ha. rewrite (get_token_miss w Hv).
  destruct (expiry_after_return _ _ _ _ Ht Ha) as [Hx Hi].
  rewrite (fetch_stored (advance (check_readings (token_cache w)) w)
             r d access_token expires_in expires Hp Hs Hj Hg He Hx).
  repeat split. exact Hi.
Qed.

(** C4. On a miss, when the provider answers with a status other than 200,
    the cache stays as it was and the reply carries [success: false], the
    error [Token request failed: <status>], the raw body as [detail], and
    the provider's status. *)
Theorem get_token_relays_provider_refusal (w : World) (r : Response) :
  cache_valid w = Return false ->
  provider w (List.length (posts w)) = PostReturns r ->
  status_code r <> 200 ->
  fst (get_token w) =
    {| body := jsonify
         [ ("success", VBool false);
           ("error", VStr ("Token request failed: " ++ str_int (status_code r))%string);
           ("detail", VStr (text r)) ];
       status := status_code r |} /\
  token_cache (snd (get_token w)) = token_cache w.
Proof.
  intros Hv Hp Hs. rewrite (get_token_miss w Hv).
  rewrite (fetch_rejected (advance (check_readings (token_cache w)) w) r Hp Hs). split; reflexivity.
Qed.

(** C5. On a miss, when [requests.post] raises (timeout, connection error)
    or the 200 response does not parse as JSON, the cache stays as it was
    and the reply is exactly [success: false] with the error
    [Internal server error] and status 500, whatever was raised. *)
Theorem get_token_hides_transport_failure (w : World) :
  cache_valid w = Return false ->
  (exists e, provider w (List.length (posts w)) = PostRaises e) \/
  (exists r, provider w (List.length (posts w)) = PostReturns r /\
             status_code r = 200 /\ json r = None) ->
  fst (get_token w) =
    {| body := jsonify
         [ ("success", VBool false);
           ("error", VStr "Internal server error") ];
       status := 500 |} /\
  token_cache (snd (get_token w)) = token_cache w.
Proof.
  intros Hv [[e Hp]|[r [Hp [Hs Hj]]]]; rewrite (get_token_miss w Hv).
  - rewrite (fetch_raises (advance (check_readings (token_cache w)) w) e Hp). split; reflexivity.
  - rewrite (fetch_not_json (advance (check_readings (token_cache w)) w) r Hp Hs Hj). split; reflexivity.
Qed.

(** C10. On a miss, when the provider answers 200 with a JSON body in which
    the subscript [data['access_token']] finds nothing (a dict without the
    key, or no dict at all), the reply is the generic failure with status
    500 and the cache stays as it was, both fields. *)
Theorem get_token_missing_access_token
    (w : World) (r : Response) (d : value) (e : exn) :
  cache_valid w = Return false ->
  provider w (List.length (posts w)) = PostReturns r ->
  status_code r = 200 ->
  json r = Some d ->
  getitem d "access_token" = Raise e ->
  fst (get_token w) =
    {| body := jsonify
         [ ("success", VBool false);
           ("error", VStr "Internal server error") ];
       status := 500 |} /\
  token_cache (snd (get_token w)) = token_cache w.
Proof.
  intros Hv Hp Hs Hj Hg. rewrite (get_token_miss w Hv).
  rewrite (fetch_no_token (advance (check_readings (token_cache w)) w) r d e Hp Hs Hj Hg). split; reflexivity.
Qed.

(** C6, amended. On a cache hit [expires_in] is
    [int((expires_at - now).total_seconds())] for the second clock reading
    of the call: the remaining lifetime divided in double precision and
    truncated.  While the expiry is ahead it lies between the lifetime
    rounded down and the lifetime rounded up to whole seconds; for a
    lifetime below [2**34] seconds (544 years) it is the lifetime rounded
    down, hence one less than the rounded-up lifetime unless that lifetime
    is a whole number of seconds. *)
Theorem cached_expires_in_is_truncated (w : World) (expires : datetime) :
  truthy (token (token_cache w)) = true ->
  expires_at (token_cache w) = Some expires ->
  clock w (ticks w) < expires - timedelta_minutes 5 ->
  reply_field "expires_in" (fst (get_token w)) =
    Some (VInt (int_total_seconds (expires - clock w (S (ticks w))))) /\
  (clock w (S (ticks w)) <= expires ->
   (expires - clock w (S (ticks w))) / us_per_second <=
     int_total_seconds (expires - clock w (S (ticks w))) <=
     ceil_seconds (expires - clock w (S (ticks w))) /\
   (expires - clock w (S (ticks w)) < 2 ^ 34 * us_per_second ->
    int_total_seconds (expires - clock w (S (ticks w))) =
      (expires - clock w (S (ticks w))) / us_per_second /\
    int_total_seconds (expires - clock w (S (ticks w))) =
      ceil_seconds (expires - clock w (S (ticks w))) -
      (if (expires - clock w (S (ticks w))) mod us_per_second =? 0 then 0 else 1))).
Proof.
  intros Ht He Hlt. rewrite (get_token_hit w expires Ht He Hlt).
  split; [reflexivity|]. intros Hle.
  pose proof (datetime_span expires (clock w (S (ticks w)))) as Hspan.
  split.
  - apply int_total_seconds_bounds. lia.
  - intros Hshort.
    rewrite ceil_seconds_floor, int_total_seconds_floor by lia.
    split; [reflexivity|].
    destruct ((expires - clock w (S (ticks w))) mod us_per_second =? 0); lia.
Qed.

(** ** Properties of [health_check] and of the cache *)

(** C8, amended. [health_check] leaves the world as it was and answers 200
    in every state; [token_cached] tells whether the token field is not
    [None], and [token_expires_at] is the ISO form of the expiry field when
    that field is set and null when it is not, whatever the token field
    holds.  Where the two fields are set or unset together, the expiry is
    reported exactly when a token is cached. *)
Theorem health_check_reports_each_field (w : World) :
  snd (health_check w) = w /\
  status (fst (health_check w)) = 200 /\
  reply_field "token_cached" (fst (health_check w)) =
    Some (VBool (is_not_None (token (token_cache w)))) /\
  reply_field "token_expires_at" (fst (health_check w)) =
    Some (match expires_at (token_cache w) with
          | Some expires => VStr (isoformat expires)
          | None => VNone
          end) /\
  ((token (token_cache w) = VNone <-> expires_at (token_cache w) = None) ->
   (is_not_None (token (token_cache w)) = true ->
    exists expires,
      expires_at (token_cache w) = Some expires /\
      reply_field "token_expires_at" (fst (health_check w)) =
        Some (VStr (isoformat expires))) /\
   (is_not_None (token (token_cache w)) = false ->
    reply_field "token_expires_at" (fst (health_check w)) = Some VNone)).
Proof.
  repeat (split; [reflexivity|]).
  intros [Hto Hfrom]. cbn. split.
  - intros Hn. destruct (expires_at (token_cache w)) as [expires|].
    + exists expires. split; reflexivity.
    + rewrite (Hfrom eq_refl) in Hn. discriminate.
  - intros Hn. destruct (expires_at (token_cache w)) as [expires|]; [|reflexivity].
    destruct (token (token_cache w)); try discriminate.
    specialize (Hto eq_refl). discriminate.
Qed.

(** What [storable] grants about a stored answer. *)
Lemma storable_stored (now : datetime) (r : Response) (d access_token expires_in : value) :
  storable now (PostReturns r) = true ->
  status_code r = 200 ->
  json r = Some d ->
  getitem d "access_token" = Return access_token ->
  get d "expires_in" (VInt 3600) = Return expires_in ->
  access_token <> VNone /\
  exists expires, expiry_after now expires_in = Return expires.
Proof.
  unfold storable. intros Hst Hs Hj Hg He.
  rewrite Hs, Hj, Hg, He in Hst. cbn [Z.eqb Pos.eqb] in Hst.
  apply andb_true_iff in Hst. destruct Hst as [Hn Ht]. split.
  - intros ->. discriminate.
  - destruct (expiry_after now expires_in) as [expires|]; [eauto|discriminate].
Qed.

(** One call of [get_token] on storable answers keeps the two fields set
    or unset together. *)
Lemma get_token_keeps_fields_together (w : World) :
  storable (clock w (check_readings (token_cache w) + ticks w))
           (provider w (List.length (posts w))) = true ->
  (token (token_cache w) = VNone <-> expires_at (token_cache w) = None) ->
  (token (token_cache (snd (get_token w))) = VNone <->
   expires_at (token_cache (snd (get_token w))) = None).
Proof.
  intros Hst Hinv.
  destruct (get_token_cases w) as [[expires [Ht [He [Hlt _]]]]|[Hv|[e Hv]]].
  - rewrite (get_token_hit w expires Ht He Hlt). exact Hinv.
  - rewrite (get_token_miss w Hv).
    destruct (fetch_fetched (advance (check_readings (token_cache w)) w))
      as [e|r Hp Hs|r d access_token expires_in e Hp Hs Hj Hg He Ht
          |r d access_token expires_in expires Hp Hs Hj Hg He Ht];
      cbn [snd token_cache sent advance token expires_at]; try exact Hinv.
    + cbn [advance provider posts clock ticks] in Hp, Ht. rewrite Hp in Hst.
      destruct (storable_stored _ r d access_token expires_in Hst Hs Hj Hg He)
        as [_ [expires Hd]].
      congruence.
    + cbn [advance provider posts] in Hp. rewrite Hp in Hst.
      destruct (storable_stored _ r d access_token expires_in Hst Hs Hj Hg He)
        as [Hn _].
      split; [contradiction|discriminate].
  - rewrite (get_token_raise w e Hv). exact Hinv.
Qed.

(** C9, amended. In every state reached through provider answers that are
    storable (a 200 body with an [access_token] has it not null, with an
    [expires_in] that is absent or a number [timedelta] accepts and that
    leads from the clock reading to a date of the years 1 to 9999), the
    token field is [None] exactly when the expiry field is: both are
    [None] at the start and a fetch sets both or neither. *)
Theorem token_and_expiry_set_together (c : Cache) :
  reachable_storable c ->
  (token c = VNone <-> expires_at c = None).
Proof.
  induction 1 as [|w Hr IH Hst|w Hr IH].
  - split; reflexivity.
  - now apply get_token_keeps_fields_together.
  - exact IH.
Qed.

(** ** Further properties of the views *)

(** X1, amended. [load_config] raises exactly when line 35 does, for a
    [PORT] that is set and that [int] rejects, or, [PORT] being unset or an
    int, when one of the four credentials is unset or empty, which is the
    [ValueError] of line 39. *)
Theorem load_config_needs_every_credential (env : environ) (e : exn) :
  load_config int_of_str env = Raise e <->
  server_port int_of_str env = Raise e \/
  (exists port, server_port int_of_str env = Return port) /\
  e = ValueError /\
  exists name,
    In name ["CLIENT_ID"; "CLIENT_SECRET"; "OAUTH_USERNAME"; "OAUTH_PASSWORD"] /\
    credential_given env name = false.
Proof.
  unfold load_config, credential_given.
  destruct (server_port int_of_str env) as [port|e'].
  2:{ split.
      - intros H. injection H as ->. left. reflexivity.
      - intros [H|[[port H] _]]; [now injection H as ->|discriminate]. }
  split.
  - intros H. right. split; [eauto|].
    assert (He : e = ValueError).
    { destruct (env "CLIENT_ID"), (env "CLIENT_SECRET"), (env "OAUTH_USERNAME"),
        (env "OAUTH_PASSWORD"); try (now injection H as <-).
      destruct (negb _ && negb _ && negb _ && negb _); [discriminate|].
      now injection H as <-. }
    split; [exact He|]. subst e.
    destruct (env "CLIENT_ID") as [a|] eqn:Ea;
      [|exists "CLIENT_ID"; rewrite Ea; cbn; auto].
    destruct (env "CLIENT_SECRET") as [b|] eqn:Eb;
      [|exists "CLIENT_SECRET"; rewrite Eb; cbn; auto].
    destruct (env "OAUTH_USERNAME") as [c|] eqn:Ec;
      [|exists "OAUTH_USERNAME"; rewrite Ec; cbn; auto].
    destruct (env "OAUTH_PASSWORD") as [d|] eqn:Ed;
      [|exists "OAUTH_PASSWORD"; rewrite Ed; cbn; auto 6].
    destruct (negb (a =? "")%string) eqn:Na;
      [|exists "CLIENT_ID"; rewrite Ea; cbn; auto].
    destruct (negb (b =? "")%string) eqn:Nb;
      [|exists "CLIENT_SECRET"; rewrite Eb; cbn; auto].
    destruct (negb (c =? "")%string) eqn:Nc;
      [|exists "OAUTH_USERNAME"; rewrite Ec; cbn; auto].
    destruct (negb (d =? "")%string) eqn:Nd;
      [|exists "OAUTH_PASSWORD"; rewrite Ed; cbn; auto 6].
    cbn in H. discriminate H.
  - intros [H|[_ [-> [name [Hin Hg]]]]]; [discriminate|].
    destruct (env "CLIENT_ID") as [a|] eqn:Ea; [|reflexivity].
    destruct (env "CLIENT_SECRET") as [b|] eqn:Eb; [|reflexivity].
    destruct (env "OAUTH_USERNAME") as [c|] eqn:Ec; [|reflexivity].
    destruct (env "OAUTH_PASSWORD") as [d|] eqn:Ed; [|reflexivity].
    cbn in Hin.
    destruct Hin as [<-|[<-|[<-|[<-|[]]]]];
      [rewrite Ea in Hg|rewrite Eb in Hg|rewrite Ec in Hg|rewrite Ed in Hg];
      destruct (negb (a =? "")%string), (negb (b =? "")%string),
        (negb (c =? "")%string), (negb (d =? "")%string);
      solve [reflexivity | discriminate Hg].
Qed.

(** X2. A server whose configuration [load_config] accepted sends, on every
    cache miss, one request to the configured URL whose form carries the
    four credentials of the environment, none of them empty, and the
    defaults of lines 28-30 for what the environment leaves unset. *)
Theorem started_server_sends_its_credentials (env : environ) (w : World) :
  load_config int_of_str env = Return cfg ->
  cache_valid w = Return false ->
  exists client_id client_secret username password,
    env "CLIENT_ID" = Some client_id /\ client_id <> "" /\
    env "CLIENT_SECRET" = Some client_secret /\ client_secret <> "" /\
    env "OAUTH_USERNAME" = Some username /\ username <> "" /\
    env "OAUTH_PASSWORD" = Some password /\ password <> "" /\
    posts (snd (get_token w)) =
      (posts w ++
       [ {| url := getenv_or env "TOKEN_URL" "https://login.mzoneweb.net/connect/token";
            data :=
              [ ("client_id", client_id);
                ("client_secret", client_secret);
                ("username", username);
                ("password", password);
                ("scope", getenv_or env "SCOPE" "mz6-api.all mz_username");
                ("grant_type", getenv_or env "GRANT_TYPE" "password");
                ("response_type", getenv_or env "RESPONSE_TYPE" "code id_token") ];
            headers := [("Content-Type", "application/x-www-form-urlencoded")];
            timeout := 10 |} ])%list.
Proof.
  intros Hl Hv. unfold load_config in Hl.
  destruct (server_port int_of_str env) as [port|]; [|discriminate].
  destruct (env "CLIENT_ID") as [a|]; [|discriminate].
  destruct (env "CLIENT_SECRET") as [b|]; [|discriminate].
  destruct (env "OAUTH_USERNAME") as [c|]; [|discriminate].
  destruct (env "OAUTH_PASSWORD") as [d|]; [|discriminate].
  destruct (negb (a =? "")%string) eqn:Na; [|discriminate].
  destruct (negb (b =? "")%string) eqn:Nb; [|discriminate].
  destruct (negb (c =? "")%string) eqn:Nc; [|discriminate].
  destruct (negb (d =? "")%string) eqn:Nd; [|discriminate].
  cbn in Hl. injection Hl as Hcfg.
  apply negb_true_iff, String.eqb_neq in Na, Nb, Nc, Nd.
  exists a, b, c, d. repeat (split; [solve [reflexivity | assumption]|]).
  destruct (get_token_world w) as [_ [_ Hp]]. rewrite Hv in Hp. rewrite Hp.
  unfold token_request, payload. rewrite <- Hcfg. reflexivity.
Qed.

(** X3. The HTTP status of a reply of [get_token] is 200 exactly when the
    body says [success: true]; every other reply says [success: false] and
    carries an [error] string. *)
Theorem get_token_status_tells_success (w : World) :
  (status (fst (get_token w)) = 200 <->
   reply_field "success" (fst (get_token w)) = Some (VBool true)) /\
  (reply_field "success" (fst (get_token w)) = Some (VBool true) \/
   reply_field "success" (fst (get_token w)) = Some (VBool false) /\
   exists message, reply_field "error" (fst (get_token w)) = Some (VStr message)).
Proof.
  destruct (get_token_cases w) as [[expires [Ht [He [Hlt _]]]]|[Hv|[e Hv]]].
  - rewrite (get_token_hit w expires Ht He Hlt). cbn.
    split; [split; reflexivity | left; reflexivity].
  - rewrite (get_token_miss w Hv).
    destruct (fetch_fetched (advance (check_readings (token_cache w)) w))
      as [e|r Hp Hs| |]; cbn.
    + split; [split; discriminate | right; eauto].
    + split; [split; [contradiction|discriminate] | right; eauto].
    + split; [split; discriminate | right; eauto].
    + split; [split; reflexivity | left; reflexivity].
  - rewrite (get_token_raise w e Hv). cbn.
    split; [split; discriminate | right; eauto].
Qed.

(** X4. On a miss, when the provider answers 200 with a body that has an
    [access_token] but an [expires_in] that [timedelta] rejects (a string,
    null, a list), the reply is the generic 500 failure, the token field
    holds the new token and the expiry field is the old one. *)
Theorem get_token_keeps_token_of_failed_fetch
    (w : World) (r : Response) (d access_token expires_in : value) (e : exn) :
  cache_valid w = Return false ->
  provider w (List.length (posts w)) = PostReturns r ->
  status_code r = 200 ->
  json r = Some d ->
  getitem d "access_token" = Return access_token ->
  get d "expires_in" (VInt 3600) = Return expires_in ->
  timedelta_seconds expires_in = Raise e ->
  fst (get_token w) =
    {| body := jsonify
         [ ("success", VBool false);
           ("error", VStr "Internal server error") ];
       status := 500 |} /\
  token_cache (snd (get_token w)) =
    {| token := access_token; expires_at := expires_at (token_cache w) |}.
Proof.
  intros Hv Hp Hs Hj Hg He Ht. rewrite (get_token_miss w Hv).
  rewrite (fetch_bad_lifetime (advance (check_readings (token_cache w)) w)
             r d access_token expires_in e Hp Hs Hj Hg He
             (expiry_after_no_duration _ _ _ Ht)).
  split; reflexivity.
Qed.

(** X5. A call of [get_token] changes the expiry field only when it answers
    [success: true] with [cached: false], and changes the token field only
    to an [access_token] the provider sent in a 200 response to this call. *)
Theorem get_token_changes_cache_only_by_fetch (w : World) :
  (expires_at (token_cache (snd (get_token w))) <> expires_at (token_cache w) ->
   reply_field "success" (fst (get_token w)) = Some (VBool true) /\
   reply_field "cached" (fst (get_token w)) = Some (VBool false)) /\
  (token (token_cache (snd (get_token w))) <> token (token_cache w) ->
   exists r d,
     provider w (List.length (posts w)) = PostReturns r /\
     status_code r = 200 /\
     json r = Some d /\
     getitem d "access_token" = Return (token (token_cache (snd (get_token w))))).
Proof.
  destruct (get_token_cases w) as [[expires [Ht [He [Hlt _]]]]|[Hv|[e Hv]]].
  - rewrite (get_token_hit w expires Ht He Hlt). cbn.
    split; intros H; contradiction H; reflexivity.
  - rewrite (get_token_miss w Hv).
    destruct (fetch_fetched (advance (check_readings (token_cache w)) w))
      as [e|r Hp Hs|r d access_token expires_in e Hp Hs Hj Hg He Ht
          |r d access_token expires_in expires Hp Hs Hj Hg He Ht];
      cbn [fst snd token_cache sent advance token expires_at]; split; intros H;
      try (contradiction H; reflexivity).
    + exists r, d. auto.
    + split; reflexivity.
    + exists r, d. auto.
  - rewrite (get_token_raise w e Hv). cbn.
    split; intros H; contradiction H; reflexivity.
Qed.

(** X6, amended. Fetch, then hit: after a call that stored a truthy token
    with an expiry, the lifetime [delta] after the clock reading and a date
    of the years 1 to 9999, a second call whose clock reading is still
    below the stored expiry minus five minutes serves that token with
    [cached: true] and sends nothing, so that the two calls made one
    request. *)
Theorem second_call_is_served_from_cache
    (w : World) (r : Response) (d access_token expires_in : value)
    (delta : timedelta) (expires : datetime) :
  cache_valid w = Return false ->
  provider w (List.length (posts w)) = PostReturns r ->
  status_code r = 200 ->
  json r = Some d ->
  getitem d "access_token" = Return access_token ->
  get d "expires_in" (VInt 3600) = Return expires_in ->
  timedelta_seconds expires_in = Return delta ->
  datetime_add (clock w (check_readings (token_cache w) + ticks w)) delta = Return expires ->
  truthy access_token = true ->
  clock w (S (check_readings (token_cache w) + ticks w)) <
    clock w (check_readings (token_cache w) + ticks w) + delta - timedelta_minutes 5 ->
  reply_field "access_token" (fst (get_token (snd (get_token w)))) = Some access_token /\
  reply_field "cached" (fst (get_token (snd (get_token w)))) = Some (VBool true) /\
  posts (snd (get_token (snd (get_token w)))) = (posts w ++ [token_request])%list.
Proof.
  intros Hv Hp Hs Hj Hg He Ht Ha Htruthy Hlt. rewrite (get_token_miss w Hv).
  destruct (expiry_after_return _ _ _ _ Ht Ha) as [Hx Hi].
  rewrite (fetch_stored (advance (check_readings (token_cache w)) w)
             r d access_token expires_in expires Hp Hs Hj Hg He Hx).
  cbn [snd advance token_cache clock ticks provider posts].
  rewrite <- Hi in Hlt.
  match goal with
  | |- context [get_token ?w1] =>
      rewrite (get_token_hit w1 expires Htruthy eq_refl Hlt)
  end.
  repeat split.
Qed.

(** X7, amended. A token granted for five minutes or less is never served
    from the cache: when the token was stored with an expiry, a date not
    within five minutes of [datetime.min], and the clock does not run
    backwards, the call after the one that stored it fetches again. *)
Theorem short_lived_token_is_fetched_again
    (w : World) (r : Response) (d access_token expires_in : value)
    (delta : timedelta) (expires : datetime) :
  cache_valid w = Return false ->
  provider w (List.length (posts w)) = PostReturns r ->
  status_code r = 200 ->
  json r = Some d ->
  getitem d "access_token" = Return access_token ->
  get d "expires_in" (VInt 3600) = Return expires_in ->
  timedelta_seconds expires_in = Return delta ->
  datetime_add (clock w (check_readings (token_cache w) + ticks w)) delta = Return expires ->
  delta <= timedelta_minutes 5 ->
  timedelta_minutes 5 <= expires ->
  clock w (check_readings (token_cache w) + ticks w) <=
    clock w (S (check_readings (token_cache w) + ticks w)) ->
  posts (snd (get_token (snd (get_token w)))) =
    (posts w ++ [token_request; token_request])%list.
Proof.
  intros Hv Hp Hs Hj Hg He Ht Ha Hshort Hfar Hmono.
  destruct (get_token_world (snd (get_token w))) as [_ [_ Hp2]].
  rewrite Hp2. clear Hp2.
  rewrite (get_token_miss w Hv).
  destruct (expiry_after_return _ _ _ _ Ht Ha) as [Hx Hi].
  rewrite (fetch_stored (advance (check_readings (token_cache w)) w)
             r d access_token expires_in expires Hp Hs Hj Hg He Hx).
  cbn [snd advance token_cache clock ticks provider posts].
  assert (Hstale : cache_valid
            {| token_cache := {| token := access_token; expires_at := Some expires |};
               clock := clock w;
               ticks := S (check_readings (token_cache w) + ticks w);
               provider := provider w;
               posts := (posts w ++ [token_request])%list |} = Return false).
  { unfold cache_valid, datetime_sub. cbn [token_cache token expires_at clock ticks].
    destruct (truthy access_token); [|reflexivity].
    pose proof (instant_bounds expires).
    destruct (datetime_at_in_range (expires - timedelta_minutes 5)) as [limit [Hl Hli]].
    { unfold timedelta_minutes, us_per_second in *. lia. }
    rewrite Hl, Hli. f_equal. apply Z.ltb_ge. lia. }
  rewrite Hstale. rewrite <- app_assoc. reflexivity.
Qed.

(** X8. A cached token that is not [None] but tests false (the empty
    string, [0], [false], an empty list or object) is reported as cached by
    [health_check] and fetched anew by every call of [get_token]. *)
Theorem falsy_token_counts_for_health_only (w : World) :
  is_not_None (token (token_cache w)) = true ->
  truthy (token (token_cache w)) = false ->
  reply_field "token_cached" (fst (health_check w)) = Some (VBool true) /\
  posts (snd (get_token w)) = (posts w ++ [token_request])%list.
Proof.
  intros Hn Hf. split.
  - cbn. rewrite Hn. reflexivity.
  - destruct (get_token_world w) as [_ [_ Hp]]. rewrite Hp.
    rewrite (falsy_token_not_valid w Hf). reflexivity.
Qed.

(** X9. The [expires_in] of a cached reply is never far below five minutes:
    when the second clock reading of the call is at most [lag] after the
    first, it exceeds 300 seconds less [lag] and one second. *)
Theorem cached_expires_in_lower_bound (w : World) (expires : datetime) (lag : timedelta) :
  truthy (token (token_cache w)) = true ->
  expires_at (token_cache w) = Some expires ->
  clock w (ticks w) < expires - timedelta_minutes 5 ->
  clock w (S (ticks w)) <= clock w (ticks w) + lag ->
  lag <= timedelta_minutes 5 ->
  exists n,
    reply_field "expires_in" (fst (get_token w)) = Some (VInt n) /\
    300 * us_per_second - lag - us_per_second < n * us_per_second.
Proof.
  intros Ht He Hlt Hlag Hsmall. rewrite (get_token_hit w expires Ht He Hlt).
  eexists. split; [reflexivity|].
  pose proof (datetime_span expires (clock w (S (ticks w)))) as Hspan.
  unfold timedelta_minutes in *.
  pose proof (int_total_seconds_bounds (expires - clock w (S (ticks w))) ltac:(lia))
    as [Hfloor _].
  unfold us_per_second in *.
  pose proof (Z.mod_pos_bound (expires - clock w (S (ticks w))) 1000000 ltac:(lia)) as Hm.
  pose proof (Z.div_mod (expires - clock w (S (ticks w))) 1000000 ltac:(lia)) as Hd.
  lia.
Qed.

(** X10, amended. A cached reply never promises more than the provider
    granted: when the first call stored a token granted for [n] seconds,
    ending at a date of the years 1 to 9999, and the clock does not run
    backwards before the second call computes [expires_in], the
    [expires_in] of the second, cached reply is at most [n]. *)
Theorem cached_expires_in_at_most_granted
    (w : World) (r : Response) (d access_token : value) (n : Z) (expires : datetime) :
  cache_valid w = Return false ->
  provider w (List.length (posts w)) = PostReturns r ->
  status_code r = 200 ->
  json r = Some d ->
  getitem d "access_token" = Return access_token ->
  get d "expires_in" (VInt 3600) = Return (VInt n) ->
  datetime_add (clock w (check_readings (token_cache w) + ticks w)) (n * us_per_second) =
    Return expires ->
  truthy access_token = true ->
  clock w (S (check_readings (token_cache w) + ticks w)) <
    clock w (check_readings (token_cache w) + ticks w) + n * us_per_second
    - timedelta_minutes 5 ->
  clock w (check_readings (token_cache w) + ticks w) <=
    clock w (S (S (check_readings (token_cache w) + ticks w))) ->
  exists m,
    reply_field "expires_in" (fst (get_token (snd (get_token w)))) = Some (VInt m) /\
    m <= n.
Proof.
  intros Hv Hp Hs Hj Hg He Ha Htruthy Hlt Hmono. rewrite (get_token_miss w Hv).
  destruct (expiry_after_return _ _ _ _ (timedelta_seconds_between _ _ _ Ha) Ha) as [Hx Hi].
  rewrite (fetch_stored (advance (check_readings (token_cache w)) w)
             r d access_token (VInt n) expires Hp Hs Hj Hg He Hx).
  cbn [snd advance token_cache clock ticks provider posts].
  rewrite <- Hi in Hlt.
  match goal with
  | |- context [get_token ?w1] =>
      rewrite (get_token_hit w1 expires Htruthy eq_refl Hlt)
  end.
  cbn [fst reply_field body jsonify lookup String.eqb Ascii.eqb Bool.eqb
       clock ticks].
  eexists. split; [reflexivity|].
  apply int_total_seconds_le; [apply datetime_span|]. lia.
Qed.

(** The requests a run of the server adds to the log. *)
Lemma serve_posts (requests : list route) (w : World) :
  exists k,
    (k <= token_calls requests)%nat /\
    posts (snd (serve requests w)) = (posts w ++ repeat token_request k)%list.
Proof.
  revert w. induction requests as [|r rest IH]; intros w.
  - exists 0%nat. cbn. split; [lia|]. now rewrite app_nil_r.
  - cbn [serve]. destruct (dispatch r w) as [reply w'] eqn:Hd.
    destruct (IH w') as [k [Hk Hp]].
    destruct (serve rest w') as [replies w''] eqn:Hs.
    cbn [snd] in *. rewrite Hp.
    assert (Hw' : w' = snd (dispatch r w)) by now rewrite Hd.
    destruct r; cbn [dispatch token_calls] in *.
    + destruct (get_token_world w) as [_ [_ Hg]]. rewrite Hw', Hg.
      destruct (cache_valid w) as [[|]|].
      * exists k. split; [lia|reflexivity].
      * exists (S k). split; [lia|]. rewrite <- app_assoc. reflexivity.
      * exists k. split; [lia|reflexivity].
    + exists k. split; [lia|]. rewrite Hw'. reflexivity.
Qed.

(** X11. However many requests the server answers, the provider only ever
    receives the fixed token request, at most once per request to
    [/api/token]; requests to [/api/health] send nothing. *)
Theorem server_sends_only_token_requests (requests : list route) (w : World) :
  posts w = [] ->
  Forall (fun sent => sent = token_request) (posts (snd (serve requests w))) /\
  (List.length (posts (snd (serve requests w))) <= token_calls requests)%nat.
Proof.
  intros Hw. destruct (serve_posts requests w) as [k [Hk Hp]].
  rewrite Hp, Hw. cbn [app]. split.
  - apply Forall_forall. intros x Hx. now apply repeat_spec in Hx.
  - rewrite repeat_length. exact Hk.
Qed.

(** X12, amended. After a call stored a token with an expiry, the lifetime
    [delta] after the clock reading and a date of the years 1 to 9999,
    [health_check] reports that expiry in ISO form, and
    [token_cached: true] unless the provider's [access_token] was null. *)
Theorem health_check_after_fetch
    (w : World) (r : Response) (d access_token expires_in : value)
    (delta : timedelta) (expires : datetime) :
  cache_valid w = Return false ->
  provider w (List.length (posts w)) = PostReturns r ->
  status_code r = 200 ->
  json r = Some d ->
  getitem d "access_token" = Return access_token ->
  get d "expires_in" (VInt 3600) = Return expires_in ->
  timedelta_seconds expires_in = Return delta ->
  datetime_add (clock w (check_readings (token_cache w) + ticks w)) delta = Return expires ->
  reply_field "token_cached" (fst (health_check (snd (get_token w)))) =
    Some (VBool (is_not_None access_token)) /\
  reply_field "token_expires_at" (fst (health_check (snd (get_token w)))) =
    Some (VStr (isoformat expires)) /\
  instant expires = clock w (check_readings (token_cache w) + ticks w) + delta.
Proof.
  intros Hv Hp Hs Hj Hg He Ht Ha. rewrite (get_token_miss w Hv).
  destruct (expiry_after_return _ _ _ _ Ht Ha) as [Hx Hi].
  rewrite (fetch_stored (advance (check_readings (token_cache w)) w)
             r d access_token expires_in expires Hp Hs Hj Hg He Hx).
  repeat split. exact Hi.
Qed.

End Views.

(** ** The properties at work *)

Abbreviation run_get_token := (get_token no_floats sample_cfg).

(** The scenario of the specification: the provider grants [abc123] for
    1200 seconds; the first call stores it, and a call 100 seconds later
    serves it from the cache with 1100 seconds left. *)
Example scenario_first_call :
  run_get_token (first_call (PostReturns token_response)) =
  ({| body := jsonify
        [ ("success", VBool true);
          ("access_token", VStr "abc123");
          ("expires_in", VInt 1200);
          ("cached", VBool false) ];
      status := 200 |},
   {| token_cache := {| token := VStr "abc123"; expires_at := Some (later 1200000000) |};
      clock := ticking_from new_year;
      ticks := 1;
      provider := fun _ => PostReturns token_response;
      posts := [token_request sample_cfg] |}).
Proof. reflexivity. Qed.

Example scenario_second_call :
  fst (run_get_token
         {| token_cache := {| token := VStr "abc123"; expires_at := Some (later 1200000000) |};
            clock := stopped_at (later 100000000);
            ticks := 1;
            provider := fun _ => PostReturns token_response;
            posts := [token_request sample_cfg] |}) =
  {| body := jsonify
       [ ("success", VBool true);
         ("access_token", VStr "abc123");
         ("expires_in", VInt 1100);
         ("cached", VBool true) ];
     status := 200 |}.
Proof. reflexivity. Qed.

(** A lifetime sent as a string stores the token and then fails. *)
Example string_expiry_call :
  fst (run_get_token (first_call (PostReturns string_expiry_response))) =
    internal_server_error TypeError /\
  token_cache (snd (run_get_token (first_call (PostReturns string_expiry_response)))) =
    token_only_cache.
Proof. split; reflexivity. Qed.

(** So does a lifetime of [10**12] seconds, which [timedelta] accepts and
    which ends after year 9999: line 123 raises once the token is stored. *)
Example far_future_call :
  timedelta_seconds no_floats (VInt 1000000000000) = Return (1000000000000 * us_per_second) /\
  fst (run_get_token (first_call (PostReturns far_future_response))) =
    internal_server_error OverflowError /\
  token_cache (snd (run_get_token (first_call (PostReturns far_future_response)))) =
    token_only_cache.
Proof. repeat split. Qed.

(** An empty string is no token for line 87: it is fetched anew although
    [health_check] counts it as cached. *)
Example empty_token_is_fetched_again :
  posts (snd (run_get_token
                (fresh_world empty_token_cache (stopped_at new_year) (PostRaises Timeout)))) =
    [token_request sample_cfg] /\
  reply_field "token_cached"
    (fst (health_check microsecond_count
            (fresh_world empty_token_cache (stopped_at new_year) (PostRaises Timeout)))) =
    Some (VBool true).
Proof. split; reflexivity. Qed.

(** [int(td.total_seconds())] on a few durations, as Python computes it:
    whole seconds for short ones, the nearest double for long ones. *)
Example int_total_seconds_samples :
  map int_total_seconds
    [0; 999999; 1000000; 1999999; -1500000; 1000500000;
     2 ^ 34 * us_per_second - 1; 2 ^ 35 * us_per_second - 1; datetime_max_instant] =
    [0; 0; 1; 1; -1; 1000; 2 ^ 34 - 1; 2 ^ 35; 315537897600].
Proof. vm_compute. reflexivity. Qed.

(** With [2**35] seconds less one microsecond left, the double nearest to
    the lifetime is [2**35]: the reply rounds up. *)
Example long_lifetime_is_rounded_up :
  reply_field "expires_in"
    (fst (run_get_token
            (fresh_world long_lived_cache (stopped_at new_year) (PostRaises Timeout)))) =
    Some (VInt (2 ^ 35)) /\
  (2 ^ 35 * us_per_second - 1) / us_per_second = 2 ^ 35 - 1.
Proof. split; reflexivity. Qed.

(** C1 as it is worded, for every token that is cached, fails on the empty
    token a provider can send: one call stores it with an expiry an hour
    ahead, and the next call, a second later, fetches again. *)
Lemma empty_token_is_not_served :
  ~ (forall (w : World) (expires : datetime),
       is_not_None (token (token_cache w)) = true ->
       expires_at (token_cache w) = Some expires ->
       clock w (ticks w) < expires - timedelta_minutes 5 ->
       reply_field "cached" (fst (run_get_token w)) = Some (VBool true) /\
       posts (snd (run_get_token w)) = posts w).
Proof.
  intros H.
  destruct (H (snd (run_get_token (first_call (PostReturns empty_token_response))))
              (later 3600000000) eq_refl eq_refl eq_refl)
    as [Hcached _].
  vm_compute in Hcached. discriminate Hcached.
Qed.

Lemma get_token_serves_cached_token_witness :
  reply_field "access_token" (fst (run_get_token cached_world)) = Some (VStr "abc123") /\
  reply_field "cached" (fst (run_get_token cached_world)) = Some (VBool true) /\
  posts (snd (run_get_token cached_world)) = [] /\
  token_cache (snd (run_get_token cached_world)) = half_second_cache.
Proof.
  destruct (get_token_serves_cached_token no_floats sample_cfg cached_world
              (later 1000500000))
    as [_ [_ [Ha [Hc [Hp Hk]]]]].
  - reflexivity.
  - reflexivity.
  - reflexivity.
  - repeat split; assumption.
Defined.

Lemma cached_reply_only_from_valid_cache_witness :
  truthy (token (token_cache cached_world)) = true /\
  (exists expires,
     expires_at (token_cache cached_world) = Some expires /\
     clock cached_world (ticks cached_world) < expires - timedelta_minutes 5) /\
  reply_field "access_token" (fst (run_get_token cached_world)) =
    Some (token (token_cache cached_world)).
Proof.
  apply (cached_reply_only_from_valid_cache no_floats sample_cfg cached_world).
  reflexivity.
Defined.

(** C7 as it is worded, exactly one request whenever the cache is stale,
    fails on an expiry within five minutes of [datetime.min], which a
    negative [expires_in] stores: the next call finds the cache stale,
    answers 500 and sends nothing. *)
Lemma stale_cache_can_send_nothing :
  ~ (forall (w : World) (expires : datetime),
       expires_at (token_cache w) = Some expires ->
       expires - timedelta_minutes 5 <= clock w (ticks w) ->
       posts (snd (run_get_token w)) = (posts w ++ [token_request sample_cfg])%list).
Proof.
  intros H.
  assert (Hstale : clipped (60 * us_per_second) - timedelta_minutes 5 <=
                   clock (snd (run_get_token (first_call (PostReturns far_past_response))))
                     (ticks (snd (run_get_token (first_call (PostReturns far_past_response))))))
    by (vm_compute; discriminate).
  specialize (H (snd (run_get_token (first_call (PostReturns far_past_response))))
                (clipped (60 * us_per_second)) eq_refl Hstale).
  vm_compute in H. discriminate H.
Qed.

(** C2 as it is worded, for every JSON body that has an [access_token],
    fails on a body whose [expires_in] is the string ["1200"]: the call
    answers 500 and leaves the expiry unset. *)
Lemma string_expiry_is_not_stored :
  ~ (forall (w : World) (r : Response) (d access_token : value),
       cache_valid w = Return false ->
       provider w (List.length (posts w)) = PostReturns r ->
       status_code r = 200 ->
       json r = Some d ->
       getitem d "access_token" = Return access_token ->
       status (fst (run_get_token w)) = 200 /\
       reply_field "success" (fst (run_get_token w)) = Some (VBool true) /\
       reply_field "access_token" (fst (run_get_token w)) = Some access_token /\
       reply_field "cached" (fst (run_get_token w)) = Some (VBool false) /\
       token (token_cache (snd (run_get_token w))) = access_token /\
       exists expires, expires_at (token_cache (snd (run_get_token w))) = Some expires).
Proof.
  intros H.
  destruct (H (first_call (PostReturns string_expiry_response))
              string_expiry_response
              (VDict [("access_token", VStr "abc123"); ("expires_in", VStr "1200")])
              (VStr "abc123")
              eq_refl eq_refl eq_refl eq_refl eq_refl)
    as [Hstatus _].
  discriminate Hstatus.
Qed.

Lemma get_token_stores_fetched_token_witness :
  fst (run_get_token (first_call (PostReturns token_response))) =
    {| body := jsonify
         [ ("success", VBool true);
           ("access_token", VStr "abc123");
           ("expires_in", VInt 1200);
           ("cached", VBool false) ];
       status := 200 |} /\
  token_cache (snd (run_get_token (first_call (PostReturns token_response)))) =
    {| token := VStr "abc123"; expires_at := Some (later 1200000000) |} /\
  instant (later 1200000000) =
    clock (first_call (PostReturns token_response))
      (check_readings (token_cache (first_call (PostReturns token_response))) +
       ticks (first_call (PostReturns token_response))) + 1200000000.
Proof.
  apply (get_token_stores_fetched_token no_floats sample_cfg
           (first_call (PostReturns token_response)) token_response
           (VDict [("access_token", VStr "abc123"); ("expires_in", VInt 1200)])
           (VStr "abc123") (VInt 1200) 1200000000 (later 1200000000));
    reflexivity.
Defined.

Lemma get_token_relays_provider_refusal_witness :
  fst (run_get_token (first_call (PostReturns unauthorized_response))) =
    {| body := jsonify
         [ ("success", VBool false);
           ("error", VStr "Token request failed: 401");
           ("detail", VStr "invalid_client") ];
       status := 401 |} /\
  token_cache (snd (run_get_token (first_call (PostReturns unauthorized_response)))) =
    initial_cache.
Proof.
  apply (get_token_relays_provider_refusal no_floats sample_cfg
           (first_call (PostReturns unauthorized_response)) unauthorized_response).
  - reflexivity.
  - reflexivity.
  - cbn. lia.
Defined.

Lemma get_token_hides_transport_failure_witness :
  fst (run_get_token (first_call (PostRaises Timeout))) =
    {| body := jsonify
         [ ("success", VBool false);
           ("error", VStr "Internal server error") ];
       status := 500 |} /\
  token_cache (snd (run_get_token (first_call (PostRaises Timeout)))) = initial_cache.
Proof.
  apply (get_token_hides_transport_failure no_floats sample_cfg
           (first_call (PostRaises Timeout))).
  - reflexivity.
  - left. exists Timeout. reflexivity.
Defined.

Lemma get_token_missing_access_token_witness :
  fst (run_get_token (first_call (PostReturns tokenless_response))) =
    {| body := jsonify
         [ ("success", VBool false);
           ("error", VStr "Internal server error") ];
       status := 500 |} /\
  token_cache (snd (run_get_token (first_call (PostReturns tokenless_response)))) =
    initial_cache.
Proof.
  apply (get_token_missing_access_token no_floats sample_cfg
           (first_call (PostReturns tokenless_response)) tokenless_response
           (VDict [("token_type", VStr "Bearer")]) (KeyError "access_token"));
    reflexivity.
Defined.

(** C6 as it is worded fails on a token with 1000.5 seconds left: the reply
    says 1000, the rounded-up lifetime is 1001. *)
Lemma cached_expires_in_is_not_rounded_up :
  ~ (forall (w : World) (expires : datetime),
       truthy (token (token_cache w)) = true ->
       expires_at (token_cache w) = Some expires ->
       clock w (ticks w) < expires - timedelta_minutes 5 ->
       reply_field "expires_in" (fst (run_get_token w)) =
         Some (VInt (ceil_seconds (expires - clock w (ticks w))))).
Proof.
  intros H.
  specialize (H cached_world (later 1000500000) eq_refl eq_refl eq_refl).
  vm_compute in H. discriminate H.
Qed.

Lemma cached_expires_in_is_truncated_witness :
  reply_field "expires_in" (fst (run_get_token cached_world)) = Some (VInt 1000) /\
  ceil_seconds (later 1000500000 - clock cached_world 1) = 1001.
Proof.
  destruct (cached_expires_in_is_truncated no_floats sample_cfg cached_world
              (later 1000500000))
    as [Hfield _].
  - reflexivity.
  - reflexivity.
  - reflexivity.
  - split; [exact Hfield | reflexivity].
Defined.

(** C8 as it is worded fails in the state the string lifetime leaves
    behind: a token is cached and no expiry is reported. *)
Lemma health_check_token_without_expiry :
  ~ (forall w : World,
       snd (health_check microsecond_count w) = w /\
       status (fst (health_check microsecond_count w)) = 200 /\
       reply_field "token_cached" (fst (health_check microsecond_count w)) =
         Some (VBool (is_not_None (token (token_cache w)))) /\
       (is_not_None (token (token_cache w)) = true ->
        exists expires,
          expires_at (token_cache w) = Some expires /\
          reply_field "token_expires_at" (fst (health_check microsecond_count w)) =
            Some (VStr (microsecond_count expires))) /\
       (is_not_None (token (token_cache w)) = false ->
        reply_field "token_expires_at" (fst (health_check microsecond_count w)) =
          Some VNone)).
Proof.
  intros H.
  destruct (H (snd (run_get_token (first_call (PostReturns string_expiry_response)))))
    as [_ [_ [_ [Hcached _]]]].
  destruct (Hcached eq_refl) as [expires [He _]].
  discriminate He.
Qed.

(** C9 as it is worded fails in the same state, which one call reaches. *)
Lemma token_only_cache_is_reachable :
  ~ (forall c : Cache,
       reachable no_floats microsecond_count sample_cfg c ->
       (token c = VNone <-> expires_at c = None)).
Proof.
  intros H.
  assert (Hr : reachable no_floats microsecond_count sample_cfg token_only_cache).
  { apply (reachable_get_token no_floats microsecond_count sample_cfg
             (first_call (PostReturns string_expiry_response))).
    apply reachable_start. }
  destruct (H token_only_cache Hr) as [_ Hback].
  discriminate (Hback eq_refl).
Qed.

Lemma token_and_expiry_set_together_witness :
  token (token_cache (snd (run_get_token (first_call (PostReturns token_response))))) = VNone <->
  expires_at (token_cache (snd (run_get_token (first_call (PostReturns token_response))))) = None.
Proof.
  apply (token_and_expiry_set_together no_floats microsecond_count sample_cfg).
  apply (storable_get_token no_floats microsecond_count sample_cfg
           (first_call (PostReturns token_response))).
  - apply storable_start.
  - reflexivity.
Defined.

(** ** The further properties at work *)

(** A blank [PORT=] line ends the import on line 35 although the four
    credentials are given. *)
Example blank_port_stops_the_import :
  load_config decimal_int blank_port_env = Raise ValueError /\
  (forall name,
     In name ["CLIENT_ID"; "CLIENT_SECRET"; "OAUTH_USERNAME"; "OAUTH_PASSWORD"] ->
     credential_given blank_port_env name = true) /\
  load_config decimal_int sample_env = Return sample_cfg.
Proof.
  split; [reflexivity|]. split; [|reflexivity].
  intros name [<-|[<-|[<-|[<-|[]]]]]; reflexivity.
Qed.

Lemma started_server_sends_its_credentials_witness :
  exists client_id client_secret username password,
    sample_env "CLIENT_ID" = Some client_id /\ client_id <> "" /\
    sample_env "CLIENT_SECRET" = Some client_secret /\ client_secret <> "" /\
    sample_env "OAUTH_USERNAME" = Some username /\ username <> "" /\
    sample_env "OAUTH_PASSWORD" = Some password /\ password <> "" /\
    posts (snd (run_get_token (first_call (PostRaises Timeout)))) =
      (posts (first_call (PostRaises Timeout)) ++
       [ {| url := getenv_or sample_env "TOKEN_URL" "https://login.mzoneweb.net/connect/token";
            data :=
              [ ("client_id", client_id);
                ("client_secret", client_secret);
                ("username", username);
                ("password", password);
                ("scope", getenv_or sample_env "SCOPE" "mz6-api.all mz_username");
                ("grant_type", getenv_or sample_env "GRANT_TYPE" "password");
                ("response_type", getenv_or sample_env "RESPONSE_TYPE" "code id_token") ];
            headers := [("Content-Type", "application/x-www-form-urlencoded")];
            timeout := 10 |} ])%list.
Proof.
  apply (started_server_sends_its_credentials no_floats decimal_int sample_cfg sample_env
           (first_call (PostRaises Timeout)));
    reflexivity.
Defined.

Lemma get_token_keeps_token_of_failed_fetch_witness :
  fst (run_get_token (first_call (PostReturns string_expiry_response))) =
    {| body := jsonify
         [ ("success", VBool false);
           ("error", VStr "Internal server error") ];
       status := 500 |} /\
  token_cache (snd (run_get_token (first_call (PostReturns string_expiry_response)))) =
    {| token := VStr "abc123"; expires_at := None |}.
Proof.
  apply (get_token_keeps_token_of_failed_fetch no_floats sample_cfg
           (first_call (PostReturns string_expiry_response)) string_expiry_response
           (VDict [("access_token", VStr "abc123"); ("expires_in", VStr "1200")])
           (VStr "abc123") (VStr "1200") TypeError);
    reflexivity.
Defined.

Lemma second_call_is_served_from_cache_witness :
  reply_field "access_token"
    (fst (run_get_token (snd (run_get_token (first_call (PostReturns token_response)))))) =
    Some (VStr "abc123") /\
  reply_field "cached"
    (fst (run_get_token (snd (run_get_token (first_call (PostReturns token_response)))))) =
    Some (VBool true) /\
  posts (snd (run_get_token (snd (run_get_token (first_call (PostReturns token_response)))))) =
    [token_request sample_cfg].
Proof.
  apply (second_call_is_served_from_cache no_floats sample_cfg
           (first_call (PostReturns token_response)) token_response
           (VDict [("access_token", VStr "abc123"); ("expires_in", VInt 1200)])
           (VStr "abc123") (VInt 1200) 1200000000 (later 1200000000));
    reflexivity.
Defined.

Lemma short_lived_token_is_fetched_again_witness :
  posts (snd (run_get_token
                (snd (run_get_token (first_call (PostReturns short_lived_response)))))) =
    [token_request sample_cfg; token_request sample_cfg].
Proof.
  apply (short_lived_token_is_fetched_again no_floats sample_cfg
           (first_call (PostReturns short_lived_response)) short_lived_response
           (VDict [("access_token", VStr "abc123"); ("expires_in", VInt 300)])
           (VStr "abc123") (VInt 300) 300000000 (later 300000000));
    try reflexivity; vm_compute; discriminate.
Defined.

Lemma falsy_token_counts_for_health_only_witness :
  reply_field "token_cached"
    (fst (health_check microsecond_count
            (fresh_world empty_token_cache (stopped_at new_year) (PostRaises Timeout)))) =
    Some (VBool true) /\
  posts (snd (run_get_token
                (fresh_world empty_token_cache (stopped_at new_year) (PostRaises Timeout)))) =
    [token_request sample_cfg].
Proof.
  apply (falsy_token_counts_for_health_only no_floats microsecond_count sample_cfg
           (fresh_world empty_token_cache (stopped_at new_year) (PostRaises Timeout)));
    reflexivity.
Defined.

Lemma cached_expires_in_lower_bound_witness :
  exists n,
    reply_field "expires_in" (fst (run_get_token cached_world)) = Some (VInt n) /\
    300 * us_per_second - 0 - us_per_second < n * us_per_second.
Proof.
  apply (cached_expires_in_lower_bound no_floats sample_cfg cached_world
           (later 1000500000) 0).
  - reflexivity.
  - reflexivity.
  - reflexivity.
  - vm_compute. discriminate.
  - vm_compute. discriminate.
Defined.

Lemma cached_expires_in_at_most_granted_witness :
  exists m,
    reply_field "expires_in"
      (fst (run_get_token (snd (run_get_token (first_call (PostReturns token_response)))))) =
      Some (VInt m) /\
    m <= 1200.
Proof.
  apply (cached_expires_in_at_most_granted no_floats sample_cfg
           (first_call (PostReturns token_response)) token_response
           (VDict [("access_token", VStr "abc123"); ("expires_in", VInt 1200)])
           (VStr "abc123") 1200 (later 1200000000));
    try reflexivity; vm_compute; discriminate.
Defined.

Lemma server_sends_only_token_requests_witness :
  Forall (fun sent => sent = token_request sample_cfg)
    (posts (snd (serve no_floats microsecond_count sample_cfg
                   [api_token; api_health; api_token]
                   (first_call (PostReturns token_response))))) /\
  (List.length
     (posts (snd (serve no_floats microsecond_count sample_cfg
                    [api_token; api_health; api_token]
                    (first_call (PostReturns token_response))))) <=
   token_calls [api_token; api_health; api_token])%nat.
Proof.
  apply (server_sends_only_token_requests no_floats microsecond_count sample_cfg
           [api_token; api_health; api_token]
           (first_call (PostReturns token_response))).
  reflexivity.
Defined.

Lemma health_check_after_fetch_witness :
  reply_field "token_cached"
    (fst (health_check microsecond_count
            (snd (run_get_token (first_call (PostReturns token_response)))))) =
    Some (VBool true) /\
  reply_field "token_expires_at"
    (fst (health_check microsecond_count
            (snd (run_get_token (first_call (PostReturns token_response)))))) =
    Some (VStr (microsecond_count (later 1200000000))) /\
  instant (later 1200000000) =
    clock (first_call (PostReturns token_response))
      (check_readings (token_cache (first_call (PostReturns token_response))) +
       ticks (first_call (PostReturns token_response))) + 1200000000.
Proof.
  apply (health_check_after_fetch no_floats microsecond_count sample_cfg
           (first_call (PostReturns token_response)) token_response
           (VDict [("access_token", VStr "abc123"); ("expires_in", VInt 1200)])
           (VStr "abc123") (VInt 1200) 1200000000 (later 1200000000));
    reflexivity.
Defined.

(** ** Facts about texts *)

Section Texts.

#[local] Open Scope nat_scope.

Lemma prefix_drop (p s : string) :
  prefix p s = true -> s = p ++ drop (length p) s.
Proof.
  revert s. induction p as [|a p IH]; intros s H.
  - reflexivity.
  - destruct s as [|b s]; [discriminate|]. cbn in H.
    destruct (ascii_dec a b) as [->|]; [|discriminate].
    cbn. f_equal. now apply IH.
Qed.

Lemma length_drop (n : nat) (s : string) :
  length (drop n s) = (length s - n)%nat.
Proof.
  revert s. induction n as [|n IH]; intros s.
  - cbn. lia.
  - destruct s as [|c s]; cbn; [reflexivity|apply IH].
Qed.

Lemma prefix_nonempty_length (a : ascii) (p s : string) :
  prefix (String a p) s = true -> (length (drop (length (String a p)) s) < length s)%nat.
Proof.
  intros H. rewrite length_drop.
  destruct s as [|b s]; [discriminate|]. cbn. lia.
Qed.

(** More fuel than characters changes nothing. *)
Lemma replace_from_fuel (a : ascii) (p new : string) (fuel : nat) :
  forall fuel' s, (length s <= fuel)%nat -> (length s <= fuel')%nat ->
  replace_from fuel (String a p) new s = replace_from fuel' (String a p) new s.
Proof.
  induction fuel as [|fuel IH]; intros fuel' s Hl Hl'.
  - destruct s; [|cbn in Hl; lia]. destruct fuel'; reflexivity.
  - destruct fuel' as [|fuel'].
    + destruct s; [reflexivity|cbn in Hl'; lia].
    + cbn [replace_from].
      destruct (prefix (String a p) s) eqn:Hp.
      * f_equal.
        pose proof (prefix_nonempty_length a p s Hp) as Hd.
        apply IH; lia.
      * destruct s as [|c s]; [reflexivity|].
        f_equal. cbn in Hl, Hl'. apply IH; lia.
Qed.

Lemma replace_from_enough (a : ascii) (p new : string) (fuel : nat) (s : string) :
  (length s <= fuel)%nat ->
  replace_from fuel (String a p) new s = replace_from (length s) (String a p) new s.
Proof. intros H. apply replace_from_fuel; lia. Qed.

Section Replace.

Variables (a : ascii) (p new : string).
Let old := String a p.

Lemma replace_empty : replace old new "" = "".
Proof. reflexivity. Qed.

Lemma replace_match (s : string) :
  prefix old s = true ->
  replace old new s = new ++ replace old new (drop (length old) s).
Proof.
  intros Hp. unfold replace, old in *.
  destruct s as [|c s]; [discriminate|].
  cbn [length replace_from]. rewrite Hp. f_equal.
  pose proof (prefix_nonempty_length a p (String c s) Hp) as Hd.
  cbn [length] in Hd. apply replace_from_enough. lia.
Qed.

Lemma replace_step (c : ascii) (s : string) :
  prefix old (String c s) = false ->
  replace old new (String c s) = String c (replace old new s).
Proof.
  intros Hp. unfold replace, old in *.
  cbn [length replace_from]. rewrite Hp. reflexivity.
Qed.

(** Induction along the scan of [replace]. *)
Lemma replace_ind (P : string -> Prop) :
  P "" ->
  (forall s, prefix old s = true -> P (drop (length old) s) -> P s) ->
  (forall c s, prefix old (String c s) = false -> P s -> P (String c s)) ->
  forall s, P s.
Proof.
  intros H0 Hm Hs s.
  remember (length s) as n eqn:Hn.
  revert s Hn. induction n as [n IH] using lt_wf_ind. intros s Hn.
  destruct s as [|c s]; [exact H0|].
  destruct (prefix old (String c s)) eqn:Hp.
  - apply Hm; [exact Hp|].
    apply (IH (length (drop (length old) (String c s)))); [|reflexivity].
    subst n. apply prefix_nonempty_length. exact Hp.
  - apply Hs; [exact Hp|]. apply (IH (length s)); [|reflexivity].
    subst n. cbn. lia.
Qed.

End Replace.

Lemma prefix_empty (s : string) : prefix "" s = true.
Proof. destruct s; reflexivity. Qed.

Lemma contains_empty (p : string) : contains p "" = prefix p "".
Proof. cbn. apply orb_false_r. Qed.

Lemma contains_cons (p : string) (c : ascii) (s : string) :
  contains p (String c s) = prefix p (String c s) || contains p s.
Proof. reflexivity. Qed.

Lemma contains_app_r (p u v : string) :
  contains p v = true -> contains p (u ++ v) = true.
Proof.
  intros H. induction u as [|c u IH]; [exact H|].
  cbn [append]. rewrite contains_cons, IH. apply orb_true_r.
Qed.

Lemma prefix_app_l (p u v : string) :
  prefix p u = true -> prefix p (u ++ v) = true.
Proof.
  revert u. induction p as [|a p IH]; intros u H; [apply prefix_empty|].
  destruct u as [|b u]; [discriminate|]. cbn in *.
  destruct (ascii_dec a b); [now apply IH|discriminate].
Qed.

Lemma contains_app_l (p u v : string) :
  contains p u = true -> contains p (u ++ v) = true.
Proof.
  induction u as [|c u IH]; intros H.
  - rewrite contains_empty in H. destruct p; [|discriminate].
    destruct v; reflexivity.
  - rewrite contains_cons in H. cbn [append]. rewrite contains_cons.
    apply orb_true_iff in H. destruct H as [H|H].
    + pose proof (prefix_app_l p (String c u) v H) as H'.
      cbn [append] in H'. rewrite H'. reflexivity.
    + rewrite (IH H). apply orb_true_r.
Qed.

Lemma has_char_head (c : ascii) (p : string) (c' : ascii) (s : string) :
  has_char c (String c' p) = false -> c <> c'.
Proof.
  cbn. intros H ->. rewrite Ascii.eqb_refl in H. discriminate.
Qed.

Lemma prefix_head (a : ascii) (p : string) (b : ascii) (s : string) :
  prefix (String a p) (String b s) = true -> a = b /\ prefix p s = true.
Proof.
  cbn. destruct (ascii_dec a b); [auto|discriminate].
Qed.

(** An occurrence of a pattern cannot start inside a text without the
    pattern's first character. *)
Lemma contains_skip (a : ascii) (p u v : string) :
  has_char a u = false ->
  contains (String a p) (u ++ v) = true ->
  contains (String a p) v = true.
Proof.
  induction u as [|c u IH]; intros Hu H; [exact H|].
  cbn [append] in H. rewrite contains_cons in H.
  cbn [has_char] in Hu. apply orb_false_iff in Hu. destruct Hu as [Hc Hu].
  apply orb_true_iff in H. destruct H as [H|H].
  - apply prefix_head in H. destruct H as [-> _].
    rewrite Ascii.eqb_refl in Hc. discriminate.
  - now apply IH.
Qed.

Section Occurrences.

(** The text searched for starts with [a]; the replacement starts with [n]. *)
Variables (a : ascii) (p : string) (o : ascii) (old' : string) (n : ascii) (new' : string).
#[local] Abbreviation pat := (String a p).
#[local] Abbreviation old := (String o old').
#[local] Abbreviation new := (String n new').

Hypothesis new_head_not_in_pattern : has_char n pat = false.
Hypothesis pattern_head_not_in_new : has_char a new = false.

(** A prefix free of the replacement's first character was there before. *)
Lemma prefix_before_replace (q s : string) :
  has_char n q = false ->
  prefix q (replace old new s) = true ->
  prefix q s = true.
Proof.
  revert s. induction q as [|c q IH]; intros s Hq H; [apply prefix_empty|].
  cbn [has_char] in Hq. apply orb_false_iff in Hq. destruct Hq as [Hc Hq].
  destruct s as [|b s]; [discriminate|].
  destruct (prefix old (String b s)) eqn:Hp.
  - rewrite (replace_match o old' new _ Hp) in H.
    cbn [append] in H.
    apply prefix_head in H. destruct H as [-> _].
    rewrite Ascii.eqb_refl in Hc. discriminate.
  - rewrite (replace_step o old' new _ _ Hp) in H.
    apply prefix_head in H. destruct H as [-> H].
    cbn. destruct (ascii_dec b b); [|congruence]. now apply IH.
Qed.

(** Replacing creates no occurrence of the pattern. *)
Lemma contains_before_replace (s : string) :
  contains pat (replace old new s) = true ->
  contains pat s = true.
Proof.
  induction s as [|s Hp IH|c s Hp IH] using (replace_ind o old').
  - intros H. exact H.
  - intros H. rewrite (replace_match o old' new _ Hp) in H.
    apply (contains_skip a p new) in H; [|exact pattern_head_not_in_new].
    rewrite (prefix_drop old s Hp). apply contains_app_r. now apply IH.
  - intros H. rewrite (replace_step o old' new _ _ Hp) in H.
    rewrite contains_cons in H. rewrite contains_cons.
    apply orb_true_iff in H. destruct H as [H|H].
    + rewrite <- (replace_step o old' new _ _ Hp) in H.
      rewrite (prefix_before_replace pat _ new_head_not_in_pattern H).
      reflexivity.
    + rewrite (IH H). apply orb_true_r.
Qed.

End Occurrences.

(** Replacing a pattern leaves no occurrence of it, when the pattern and
    the replacement do not share their first characters. *)
Lemma replace_removes (a : ascii) (p : string) (n : ascii) (new' : string) (s : string) :
  has_char n (String a p) = false ->
  has_char a (String n new') = false ->
  contains (String a p) (replace (String a p) (String n new') s) = false.
Proof.
  intros Hn Ha.
  induction s as [|s Hp IH|c s Hp IH] using (replace_ind a p).
  - reflexivity.
  - rewrite (replace_match a p _ _ Hp).
    destruct (contains (String a p) (String n new' ++ _)) eqn:H; [|reflexivity].
    apply (contains_skip a p) in H; [|exact Ha]. congruence.
  - rewrite (replace_step a p _ _ _ Hp). rewrite contains_cons.
    rewrite IH, orb_false_r.
    destruct (prefix (String a p) (String c (replace _ _ s))) eqn:H; [|reflexivity].
    rewrite <- (replace_step a p (String n new') _ _ Hp) in H.
    apply (prefix_before_replace a p n new') in H; [congruence|exact Hn].
Qed.

(** A text without the pattern is left as it is. *)
Lemma replace_absent (a : ascii) (p new s : string) :
  contains (String a p) s = false ->
  replace (String a p) new s = s.
Proof.
  induction s as [|c s IH]; intros H; [reflexivity|].
  rewrite contains_cons in H. apply orb_false_iff in H. destruct H as [Hp H].
  rewrite (replace_step a p new _ _ Hp). f_equal. now apply IH.
Qed.

(** ** Lines *)

Lemma split_lines_nonempty (s : string) : split_lines s <> [].
Proof.
  destruct s as [|c s]; cbn; [discriminate|].
  destruct (Ascii.eqb c newline); [discriminate|].
  destruct (split_lines s); discriminate.
Qed.

Lemma split_lines_cons (c : ascii) (s : string) :
  split_lines (String c s) =
  if Ascii.eqb c newline then "" :: split_lines s
  else match split_lines s with
       | line :: lines => String c line :: lines
       | [] => [String c ""]
       end.
Proof. reflexivity. Qed.

Lemma join_split (s : string) : join_lines (split_lines s) = s.
Proof.
  induction s as [|c s IH]; [reflexivity|].
  rewrite split_lines_cons.
  destruct (Ascii.eqb_spec c newline) as [->|Hc].
  - cbn [join_lines]. pose proof (split_lines_nonempty s) as Hne.
    destruct (split_lines s) as [|l ls]; [contradiction|].
    cbn [append]. now rewrite IH.
  - pose proof (split_lines_nonempty s) as Hne.
    destruct (split_lines s) as [|l ls]; [contradiction|].
    rewrite <- IH. destruct ls; reflexivity.
Qed.

Lemma split_lines_no_newline (s : string) :
  Forall (fun line => has_char newline line = false) (split_lines s).
Proof.
  induction s as [|c s IH]; [repeat constructor|].
  rewrite split_lines_cons.
  destruct (Ascii.eqb_spec c newline) as [->|Hc].
  - constructor; [reflexivity|exact IH].
  - destruct (split_lines s) as [|l ls].
    + constructor; [|constructor].
      cbn [has_char]. apply orb_false_iff. split; [|reflexivity].
      rewrite Ascii.eqb_sym. now apply Ascii.eqb_neq.
    + inversion IH as [|? ? Hl Hls]; subst.
      constructor; [|assumption].
      cbn [has_char]. apply orb_false_iff. split; [|assumption].
      rewrite Ascii.eqb_sym. now apply Ascii.eqb_neq.
Qed.

Lemma split_lines_app_newline (u v : string) :
  has_char newline u = false ->
  split_lines (u ++ String newline v) = u :: split_lines v.
Proof.
  induction u as [|c u IH]; intros H.
  - cbn [append]. rewrite split_lines_cons. rewrite Ascii.eqb_refl. reflexivity.
  - cbn [has_char] in H. apply orb_false_iff in H. destruct H as [Hc Hu].
    cbn [append]. rewrite split_lines_cons.
    rewrite Ascii.eqb_sym in Hc. rewrite Hc, (IH Hu). reflexivity.
Qed.

Lemma split_lines_line (u : string) :
  has_char newline u = false -> split_lines u = [u].
Proof.
  induction u as [|c u IH]; intros H; [reflexivity|].
  cbn [has_char] in H. apply orb_false_iff in H. destruct H as [Hc Hu].
  rewrite split_lines_cons. rewrite Ascii.eqb_sym in Hc.
  rewrite Hc, (IH Hu). reflexivity.
Qed.

Lemma split_join (lines : list string) :
  lines <> [] ->
  Forall (fun line => has_char newline line = false) lines ->
  split_lines (join_lines lines) = lines.
Proof.
  induction lines as [|l ls IH]; intros Hne Hf; [contradiction|].
  inversion Hf as [|? ? Hl Hls]; subst.
  destruct ls as [|l' ls].
  - cbn. now apply split_lines_line.
  - change (join_lines (l :: l' :: ls)) with (l ++ String newline (join_lines (l' :: ls))).
    rewrite (split_lines_app_newline _ _ Hl). f_equal.
    apply IH; [discriminate|assumption].
Qed.

Lemma prefix_app_newline (p u v : string) :
  has_char newline p = false ->
  prefix p (u ++ String newline v) = prefix p u.
Proof.
  revert u. induction p as [|a p IH]; intros u H.
  - now rewrite !prefix_empty.
  - cbn [has_char] in H. apply orb_false_iff in H. destruct H as [Ha Hp].
    destruct u as [|b u].
    + cbn. destruct (ascii_dec a newline) as [->|]; [|reflexivity].
      rewrite Ascii.eqb_refl in Ha. discriminate.
    + cbn. destruct (ascii_dec a b); [now apply IH|reflexivity].
Qed.

(** A pattern without a newline occurs in a text exactly when it occurs in
    one of the text's lines. *)
Lemma contains_app_newline (a : ascii) (p u v : string) :
  has_char newline (String a p) = false ->
  contains (String a p) (u ++ String newline v) =
  contains (String a p) u || contains (String a p) v.
Proof.
  intros H. induction u as [|c u IH].
  - cbn [append]. rewrite contains_cons, contains_empty.
    change (String newline v) with ("" ++ String newline v).
    rewrite (prefix_app_newline _ "" v H). reflexivity.
  - cbn [append]. rewrite !contains_cons, IH.
    change (String c (u ++ String newline v)) with (String c u ++ String newline v).
    rewrite (prefix_app_newline _ (String c u) v H).
    now rewrite orb_assoc.
Qed.

Lemma contains_join (a : ascii) (p : string) (lines : list string) :
  has_char newline (String a p) = false ->
  contains (String a p) (join_lines lines) = existsb (contains (String a p)) lines.
Proof.
  intros H. induction lines as [|l ls IH]; [reflexivity|].
  destruct ls as [|l' ls].
  - cbn. now rewrite orb_false_r.
  - change (join_lines (l :: l' :: ls)) with (l ++ String newline (join_lines (l' :: ls))).
    rewrite (contains_app_newline a p _ _ H), IH. reflexivity.
Qed.

Lemma contains_line (a : ascii) (p s line : string) :
  has_char newline (String a p) = false ->
  In line (split_lines s) ->
  contains (String a p) line = true ->
  contains (String a p) s = true.
Proof.
  intros H Hin Hc. rewrite <- (join_split s), (contains_join a p _ H).
  apply existsb_exists. eauto.
Qed.

Lemma has_char_app (c : ascii) (u v : string) :
  has_char c (u ++ v) = has_char c u || has_char c v.
Proof.
  induction u as [|b u IH]; [reflexivity|].
  cbn. now rewrite IH, orb_assoc.
Qed.

Lemma has_char_drop (c : ascii) (k : nat) (s : string) :
  has_char c s = false -> has_char c (drop k s) = false.
Proof.
  revert s. induction k as [|k IH]; intros s H; [exact H|].
  destruct s as [|b s]; [reflexivity|].
  cbn in *. apply orb_false_iff in H. now apply IH.
Qed.

(** Replacing by a text without newlines brings no newline in. *)
Lemma replace_no_newline (a : ascii) (p new s : string) :
  has_char newline new = false ->
  has_char newline s = false ->
  has_char newline (replace (String a p) new s) = false.
Proof.
  intros Hn.
  induction s as [|s Hp IH|c s Hp IH] using (replace_ind a p); intros H.
  - reflexivity.
  - rewrite (replace_match a p new _ Hp), has_char_app, Hn.
    apply IH. now apply has_char_drop.
  - rewrite (replace_step a p new _ _ Hp).
    cbn in *. apply orb_false_iff in H. destruct H as [Hc H].
    rewrite Hc. now apply IH.
Qed.

Lemma split_lines_app (u v : string) :
  has_char newline u = false ->
  split_lines (u ++ v) =
  match split_lines v with
  | line :: lines => (u ++ line) :: lines
  | [] => [u]
  end.
Proof.
  induction u as [|c u IH]; intros H.
  - cbn [append]. pose proof (split_lines_nonempty v).
    destruct (split_lines v); [contradiction|reflexivity].
  - cbn [has_char] in H. apply orb_false_iff in H. destruct H as [Hc Hu].
    cbn [append]. rewrite split_lines_cons. rewrite Ascii.eqb_sym in Hc.
    rewrite Hc, (IH Hu).
    destruct (split_lines v); reflexivity.
Qed.

Lemma prefix_self_app (p s : string) : prefix p (p ++ s) = true.
Proof.
  induction p as [|a p IH]; [apply prefix_empty|].
  cbn. destruct (ascii_dec a a); [exact IH|congruence].
Qed.

Lemma drop_app (p s : string) : drop (length p) (p ++ s) = s.
Proof. induction p as [|a p IH]; [reflexivity|exact IH]. Qed.

Lemma first_line_prefix (s : string) :
  exists rest, s = hd "" (split_lines s) ++ rest.
Proof.
  induction s as [|c s [rest IH]].
  - exists "". reflexivity.
  - rewrite split_lines_cons. destruct (Ascii.eqb c newline).
    + exists (String c s). reflexivity.
    + pose proof (split_lines_nonempty s).
      destruct (split_lines s) as [|l ls]; [contradiction|].
      exists rest. cbn [hd] in *. cbn [append]. now rewrite <- IH.
Qed.

(** Replacing one text without newlines by another goes line by line. *)
Lemma split_lines_replace (a : ascii) (p new s : string) :
  has_char newline (String a p) = false ->
  has_char newline new = false ->
  split_lines (replace (String a p) new s) =
  map (replace (String a p) new) (split_lines s).
Proof.
  intros Ho Hn.
  induction s as [|s Hp IH|c s Hp IH] using (replace_ind a p).
  - reflexivity.
  - rewrite (replace_match a p new _ Hp), (split_lines_app _ _ Hn), IH.
    rewrite (prefix_drop _ _ Hp) at 2.
    rewrite (split_lines_app _ _ Ho).
    pose proof (split_lines_nonempty (drop (length (String a p)) s)) as Hne.
    destruct (split_lines (drop (length (String a p)) s)) as [|l ls]; [contradiction|].
    cbn [map]. f_equal.
    rewrite (replace_match a p new (String a p ++ l) (prefix_self_app _ _)).
    now rewrite drop_app.
  - rewrite (replace_step a p new _ _ Hp), !split_lines_cons, IH.
    destruct (Ascii.eqb c newline); [reflexivity|].
    destruct (first_line_prefix s) as [rest Hrest].
    pose proof (split_lines_nonempty s) as Hne.
    destruct (split_lines s) as [|l ls]; [contradiction|].
    cbn [map hd] in *. f_equal.
    rewrite (replace_step a p new c l); [reflexivity|].
    apply not_true_is_false. intros Hl.
    apply (prefix_app_l _ _ rest) in Hl. cbn [append] in Hl.
    rewrite <- Hrest in Hl. congruence.
Qed.

(** The text before an offset is made of whole lines and the beginning of
    the line the offset falls in; that line is counted by the newlines
    before the offset. *)
Lemma split_lines_take (s : string) (k : nat) :
  exists before after,
    nth_error (split_lines s) (count_newlines (take k s)) = Some (before ++ after) /\
    split_lines (take k s) =
      (firstn (count_newlines (take k s)) (split_lines s) ++ [before])%list.
Proof.
  revert k. induction s as [|c s IH]; intros k.
  - exists "", "". destruct k; split; reflexivity.
  - destruct k as [|k].
    + pose proof (split_lines_nonempty (String c s)) as Hne.
      destruct (split_lines (String c s)) as [|l ls]; [contradiction|].
      exists "", l. split; reflexivity.
    + destruct (IH k) as [before [after [Hnth Hsplit]]].
      cbn [take count_newlines]. rewrite !split_lines_cons.
      destruct (Ascii.eqb c newline).
      * exists before, after. split; [exact Hnth|].
        cbn [firstn app]. now rewrite Hsplit.
      * pose proof (split_lines_nonempty s) as Hne.
        destruct (split_lines s) as [|l ls]; [contradiction|].
        destruct (count_newlines (take k s)) as [|n].
        -- cbn [nth_error firstn app] in *. injection Hnth as ->.
           exists (String c before), after. rewrite Hsplit. split; reflexivity.
        -- cbn [nth_error firstn app] in *.
           exists before, after. rewrite Hsplit. split; [exact Hnth|reflexivity].
Qed.

End Texts.

(** ** Properties of the production build *)

Lemma rewrite_line_no_newline (line : string) :
  has_char newline line = false -> has_char newline (rewrite_line line) = false.
Proof.
  intros H. unfold rewrite_line.
  destruct (contains "console.error(" line && negb (is_critical line)); [|exact H].
  apply replace_no_newline; [reflexivity|exact H].
Qed.

(** The lines of the output are the rewritten lines of the text that the
    first two replacements leave. *)
Lemma split_optimize_content (content : string) :
  split_lines (optimize_content content) =
  map rewrite_line
    (split_lines (replace "console.warn(" "debugError("
                    (replace "console.log(" "debugLog(" content))).
Proof.
  unfold optimize_content. apply split_join.
  - intros H. apply map_eq_nil in H. now apply split_lines_nonempty in H.
  - apply Forall_map.
    eapply Forall_impl; [|apply split_lines_no_newline].
    intros line. apply rewrite_line_no_newline.
Qed.

Lemma rewrite_line_keeps_absent (a : ascii) (p line : string) :
  has_char "d" (String a p) = false ->
  has_char a "debugError(" = false ->
  contains (String a p) line = false ->
  contains (String a p) (rewrite_line line) = false.
Proof.
  intros Hd Ha H. unfold rewrite_line.
  destruct (contains "console.error(" line && negb (is_critical line)); [|exact H].
  destruct (contains (String a p) (replace _ _ line)) eqn:Hc; [|reflexivity].
  apply (contains_before_replace a p "c" "onsole.error(" "d" "ebugError(" Hd Ha) in Hc.
  congruence.
Qed.

Lemma optimize_keeps_absent (a : ascii) (p content : string) :
  has_char newline (String a p) = false ->
  has_char "d" (String a p) = false ->
  has_char a "debugError(" = false ->
  contains (String a p)
    (replace "console.warn(" "debugError(" (replace "console.log(" "debugLog(" content)) = false ->
  contains (String a p) (optimize_content content) = false.
Proof.
  intros Hnl Hd Ha H. unfold optimize_content.
  rewrite (contains_join a p _ Hnl).
  apply not_true_is_false. intros He.
  apply existsb_exists in He. destruct He as [line' [Hin Hc]].
  apply in_map_iff in Hin. destruct Hin as [line [<- Hin]].
  assert (Hline : contains (String a p) line = false).
  { apply not_true_is_false. intros Hl.
    rewrite (contains_line a p _ line Hnl Hin Hl) in H. discriminate. }
  rewrite (rewrite_line_keeps_absent a p line Hd Ha Hline) in Hc. discriminate.
Qed.

Lemma optimized_has_no_log (content : string) :
  contains "console.log(" (optimize_content content) = false.
Proof.
  apply optimize_keeps_absent; try reflexivity.
  apply not_true_is_false. intros H.
  apply (contains_before_replace "c" "onsole.log(" "c" "onsole.warn(" "d" "ebugError(")
    in H; try reflexivity.
  rewrite (replace_removes "c" "onsole.log(" "d" "ebugLog(") in H by reflexivity.
  discriminate.
Qed.

Lemma optimized_has_no_warn (content : string) :
  contains "console.warn(" (optimize_content content) = false.
Proof.
  apply optimize_keeps_absent; try reflexivity.
  apply (replace_removes "c" "onsole.warn(" "d" "ebugError("); reflexivity.
Qed.

(** A rewritten line that still calls [console.error] names a critical
    error. *)
Lemma rewrite_line_error_is_critical (line : string) :
  contains "console.error(" (rewrite_line line) = true ->
  is_critical (rewrite_line line) = true.
Proof.
  unfold rewrite_line.
  destruct (contains "console.error(" line) eqn:He; cbn [andb].
  - destruct (is_critical line) eqn:Hcrit; cbn [negb]; intros Hc; [exact Hcrit|].
    rewrite (replace_removes "c" "onsole.error(" "d" "ebugError(") in Hc by reflexivity.
    discriminate.
  - congruence.
Qed.

Lemma rewrite_line_idempotent (line : string) :
  rewrite_line (rewrite_line line) = rewrite_line line.
Proof.
  unfold rewrite_line at 1.
  destruct (contains "console.error(" (rewrite_line line)) eqn:Hc; [|reflexivity].
  now rewrite (rewrite_line_error_is_critical line Hc).
Qed.

(** X13. The text [optimize_js_for_production] writes calls neither
    [console.log] nor [console.warn]: the text [console.log(] and the text
    [console.warn(] occur nowhere in it, whatever the input was. *)
Theorem optimize_content_removes_log_and_warn (content : string) :
  contains "console.log(" (optimize_content content) = false /\
  contains "console.warn(" (optimize_content content) = false.
Proof. split; [apply optimized_has_no_log|apply optimized_has_no_warn]. Qed.

(** X14. In the text written, every line in which [console.error(] still
    occurs holds one of the four critical error messages. *)
Theorem optimize_content_keeps_error_on_critical_lines (content line : string) :
  In line (split_lines (optimize_content content)) ->
  contains "console.error(" line = true ->
  is_critical line = true.
Proof.
  rewrite split_optimize_content. intros Hin Hc.
  apply in_map_iff in Hin. destruct Hin as [before [<- _]].
  now apply rewrite_line_error_is_critical.
Qed.

(** X15. A text in which none of [console.log(], [console.warn(] and
    [console.error(] occurs is written back as it was read: nothing else,
    comments included, is touched. *)
Theorem optimize_content_without_console (content : string) :
  contains "console.log(" content = false ->
  contains "console.warn(" content = false ->
  contains "console.error(" content = false ->
  optimize_content content = content.
Proof.
  intros Hl Hw He. unfold optimize_content.
  rewrite (replace_absent "c" "onsole.log(" _ _ Hl).
  rewrite (replace_absent "c" "onsole.warn(" _ _ Hw).
  rewrite <- (join_split content) at 2. f_equal.
  rewrite <- (map_id (split_lines content)) at 2.
  apply map_ext_in. intros line Hin. unfold rewrite_line.
  destruct (contains "console.error(" line) eqn:Hc; [|reflexivity].
  rewrite (contains_line "c" "onsole.error(" content line eq_refl Hin Hc) in He.
  discriminate.
Qed.

Lemma optimize_content_again (content : string) :
  optimize_content (optimize_content content) = optimize_content content.
Proof.
  unfold optimize_content at 1.
  rewrite (replace_absent "c" "onsole.log(" _ _ (optimized_has_no_log content)).
  rewrite (replace_absent "c" "onsole.warn(" _ _ (optimized_has_no_warn content)).
  rewrite split_optimize_content, map_map.
  unfold optimize_content. f_equal.
  apply map_ext. apply rewrite_line_idempotent.
Qed.

(** X16. Optimizing is idempotent: an optimized text is left as it is by a
    second pass. *)
Theorem optimize_content_idempotent (content : string) :
  optimize_content (optimize_content content) = optimize_content content.
Proof. apply optimize_content_again. Qed.

(** X17. The optimizer works line by line: the lines of the text written
    are the lines of the text read, each with the three replacements
    applied to it alone, so that no line is added, dropped or joined. *)
Theorem optimize_content_line_by_line (content : string) :
  split_lines (optimize_content content) = map optimize_line (split_lines content).
Proof.
  rewrite split_optimize_content.
  rewrite (split_lines_replace "c" "onsole.warn(") by reflexivity.
  rewrite (split_lines_replace "c" "onsole.log(") by reflexivity.
  rewrite !map_map. reflexivity.
Qed.

Lemma write_file_same (path content : string) (fs : files) :
  write_file path content fs path = Some content.
Proof. unfold write_file. now rewrite String.eqb_refl. Qed.

Lemma write_file_other (path content : string) (fs : files) (p : string) :
  (p =? path)%string = false -> write_file path content fs p = fs p.
Proof. unfold write_file. now intros ->. Qed.

Lemma build_inv (read_text : string -> option string) (write_text : string -> string)
    (fs fs1 : files) :
  build read_text write_text fs = Some fs1 ->
  exists stored content,
    fs map_js = Some stored /\
    read_text stored = Some content /\
    fs1 = write_file map_js (write_text (optimize_content content))
            (write_file backup stored fs).
Proof.
  unfold build, copy, optimize_js_for_production. intros H.
  destruct (fs map_js) as [stored|] eqn:Hs; [|discriminate].
  rewrite write_file_other, Hs in H by reflexivity.
  destruct (read_text stored) as [content|] eqn:Hr; [|discriminate].
  injection H as <-. now exists stored, content.
Qed.


(** X19. When the optimized text is read back as it was written, a second
    run of the build script succeeds and changes no file but
    [map.js.backup]: [map.js] holds after two runs what it held after
    one. *)
Theorem rebuild_changes_backup_only
    (read_text : string -> option string) (write_text : string -> string)
    (fs fs1 : files) (original content : string) :
  fs map_js = Some original ->
  read_text original = Some content ->
  read_text (write_text (optimize_content content)) = Some (optimize_content content) ->
  build read_text write_text fs = Some fs1 ->
  exists fs2,
    build read_text write_text fs1 = Some fs2 /\
    forall path, path <> backup -> fs2 path = fs1 path.
Proof.
  intros Ho Hc Hround H1.
  destruct (build_inv _ _ _ _ H1) as [original' [content' [Ho' [Hc' ->]]]].
  assert (original' = original) as -> by congruence.
  assert (content' = content) as -> by congruence.
  unfold build, copy, optimize_js_for_production.
  rewrite write_file_same.
  rewrite write_file_other by reflexivity. rewrite write_file_same.
  rewrite Hround, optimize_content_again.
  eexists. split; [reflexivity|].
  intros path Hpath. unfold write_file.
  destruct (path =? map_js)%string eqn:Hm; [reflexivity|].
  destruct (path =? backup)%string eqn:Hb; [|reflexivity].
  apply String.eqb_eq in Hb. contradiction.
Qed.

(** ** Properties of the pre-commit check *)

Section ScannerFacts.

Variable strip : string -> string.
Variable open_read : string -> option string.
Variable finditer : string -> string -> list (nat * string).




(** X21. Every finding of [check_file_for_secrets] names the file checked,
    one of the five patterns and a match of that pattern in the file, and
    its line number is that of the line in which the match starts: the
    text before the match is made of the [line_num - 1] first lines of the
    file and of the beginning of the line numbered [line_num]. *)
Theorem finding_line_is_line_of_match (filepath content : string) (finding : Finding) :
  open_read filepath = Some content ->
  In finding (check_file_for_secrets open_read finditer filepath) ->
  exists start before after,
    file finding = filepath /\
    In (pattern finding) DANGER_PATTERNS /\
    In (start, matched finding) (finditer (pattern finding) content) /\
    nth_error (split_lines content) (line_num finding - 1) = Some (before ++ after) /\
    split_lines (take start content) =
      (firstn (line_num finding - 1) (split_lines content) ++ [before])%list.
Proof.
  intros Hc Hin. unfold check_file_for_secrets in Hin.
  destruct (existsb _ FILE_PATTERNS); cbn [negb] in Hin; [|contradiction].
  rewrite Hc in Hin. apply in_flat_map in Hin.
  destruct Hin as [found [Hp Hin]]. apply in_map_iff in Hin.
  destruct Hin as [[start group] [<- Hm]]. cbn [fst snd file line_num pattern matched].
  destruct (split_lines_take content start) as [before [after [Hnth Hsplit]]].
  exists start, before, after.
  replace (count_newlines (take start content) + 1 - 1)%nat
    with (count_newlines (take start content)) by lia.
  repeat split; assumption.
Qed.

End ScannerFacts.

(** ** The scripts at work *)

Example optimize_sample_script :
  optimize_content sample_script =
    "debugLog('start');" ++ String newline
      ("console.error('Backend authentication failed');" ++ String newline
         "debugError('no tags');").
Proof. reflexivity. Qed.

Example scan_sample_tree :
  check_file_for_secrets sample_tree sample_finditer "config.py" = [sample_finding] /\
  check_file_for_secrets sample_tree sample_finditer "config.txt" = [] /\
  exit_status (fun stdout => stdout) sample_tree sample_finditer (GitOutput "config.py") = 1 /\
  exit_status (fun stdout => stdout) sample_tree sample_finditer (GitOutput "") = 0.
Proof. repeat split. Qed.

Lemma optimize_content_keeps_error_on_critical_lines_witness :
  is_critical "console.error('Backend authentication failed');" = true.
Proof.
  apply (optimize_content_keeps_error_on_critical_lines sample_script).
  - right. left. reflexivity.
  - reflexivity.
Defined.

Lemma optimize_content_without_console_witness :
  optimize_content plain_script = plain_script.
Proof.
  apply (optimize_content_without_console plain_script); reflexivity.
Defined.


Lemma rebuild_changes_backup_only_witness :
  exists fs2,
    build read_as_stored write_as_given built_once = Some fs2 /\
    forall path, path <> backup -> fs2 path = built_once path.
Proof.
  apply (rebuild_changes_backup_only read_as_stored write_as_given
           sample_files built_once sample_script sample_script);
    reflexivity.
Defined.

Lemma finding_line_is_line_of_match_witness :
  exists start before after,
    file sample_finding = "config.py" /\
    In (pattern sample_finding) DANGER_PATTERNS /\
    In (start, matched sample_finding)
       (sample_finditer (pattern sample_finding)
          ("import os" ++ String newline "SECRET = 'ScopeUKAPI01'")) /\
    nth_error (split_lines ("import os" ++ String newline "SECRET = 'ScopeUKAPI01'"))
      (line_num sample_finding - 1) = Some (before ++ after) /\
    split_lines (take start ("import os" ++ String newline "SECRET = 'ScopeUKAPI01'")) =
      (firstn (line_num sample_finding - 1)
         (split_lines ("import os" ++ String newline "SECRET = 'ScopeUKAPI01'")) ++ [before])%list.
Proof.
  apply (finding_line_is_line_of_match sample_tree sample_finditer "config.py").
  - reflexivity.
  - left. reflexivity.
Defined.
